(** * LogFlux: the collection sources, embedded and verified

    A shallow embedding of the three log sources of LogFlux
    ([internal/collector/sources]: the file tailer, the syslog receiver and
    the HTTP receiver) together with the record type of [pkg/models], and
    the properties of the collection subsystem stated over them.

    Go strings are byte strings: they are modelled by [string], whose
    characters are the 256 byte values, so that [String.length] is Go's
    [len] and indices are byte indices.  [strings.ToLower], whose case
    tables lie outside the repository, is a parameter of the code that
    calls it.  Goroutines are not modelled: each background loop is a
    function over the list of events it observes, a call that waits for
    them ([SyslogReceiver.Stop]) is given how many are left, and the
    mutexes (which only serialise field accesses) are left out. *)

From Stdlib Require Import ZArith Lia Ascii String.
From stdpp Require Import base option list gmap strings pretty.

Set Warnings "-register-all".
Open Scope Z_scope.

(** A Go [error] value: [None] is [nil], [Some msg] an error with that
    text. *)
Definition error : Type := option string.

(** ** The parts of Go's [strings] package the sources use *)
Module gostrings.

(** [strings.HasPrefix]. *)
Fixpoint HasPrefix (s prefix : string) : bool :=
  match prefix, s with
  | EmptyString, _ => true
  | String _ _, EmptyString => false
  | String c p, String d s' => if Ascii.eqb c d then HasPrefix s' p else false
  end.

(** [strings.Index]: byte index of the first occurrence, [-1] if none. *)
Fixpoint Index (s substr : string) : Z :=
  if HasPrefix s substr then 0
  else match s with
       | EmptyString => -1
       | String _ s' =>
           let i := Index s' substr in
           if i <? 0 then -1 else i + 1
       end.

(** [strings.Contains(s, substr)] is [Index(s, substr) >= 0]. *)
Definition Contains (s substr : string) : bool := 0 <=? Index s substr.

(** [strings.ToLower] maps the code points of its argument with the case
    tables of package [unicode], which are no part of this repository: the
    code that calls it takes it as the parameter [ToLower] below, and what
    is proved of that code holds whatever the function is.

    On a string of ASCII bytes only (every byte below [utf8.RuneSelf],
    128) [strings.ToLower] takes its fast path, the byte-wise mapping
    [lower_ascii]: ['A'..'Z'] move to ['a'..'z'], every other byte is
    kept. *)
Definition lower_byte (c : ascii) : ascii :=
  let n := Ascii.N_of_ascii c in
  if ((65 <=? n) && (n <=? 90))%N then Ascii.ascii_of_N (n + 32) else c.

Fixpoint lower_ascii (s : string) : string :=
  match s with
  | EmptyString => EmptyString
  | String c s' => String (lower_byte c) (lower_ascii s')
  end.

Definition ascii_byte (c : ascii) : bool := (Ascii.N_of_ascii c <? 128)%N.

Fixpoint is_ascii (s : string) : bool :=
  match s with
  | EmptyString => true
  | String c s' => ascii_byte c && is_ascii s'
  end.

(** The slice expression [s[lo:hi]] for [0 <= lo <= hi <= len(s)]. *)
Definition slice (s : string) (lo hi : Z) : string :=
  String.substring (Z.to_nat lo) (Z.to_nat (hi - lo)) s.

(** The slice expression [s[lo:]]. *)
Definition slice_from (s : string) (lo : Z) : string :=
  slice s lo (Z.of_nat (String.length s)).

(** [len(s) > 0 && s[len(s)-1] != '\n'], the test [sendTCP] and
    [processLogs] make before they add a newline. *)
Fixpoint last_byte (s : string) : option ascii :=
  match s with
  | EmptyString => None
  | String c EmptyString => Some c
  | String _ s' => last_byte s'
  end.

Definition lacks_newline (s : string) : bool :=
  match last_byte s with
  | Some c => negb (Ascii.eqb c "010")
  | None => false
  end.

End gostrings.

(** ** [pkg/models]: the record all sources produce *)
Module models.

(** [type LogLevel string] and its five constants. *)
Definition LogLevel : Type := string.
Definition LevelDebug : LogLevel := "DEBUG".
Definition LevelInfo : LogLevel := "INFO".
Definition LevelWarning : LogLevel := "WARNING".
Definition LevelError : LogLevel := "ERROR".
Definition LevelCritical : LogLevel := "CRITICAL".

(** What an [interface{}] stored in [Fields] can hold: the values the
    JSON decoder produces, the strings the syslog parser stores and the
    integers the handlers report.  A decoded JSON number is kept as its
    literal. *)
Inductive value : Type :=
| VNil
| VBool (b : bool)
| VInt (n : Z)
| VFloat (literal : string)
| VString (s : string)
| VArray (items : list value)
| VObject (members : list (string * value)).

Record LogEntry : Type := {
  ID : string;
  Timestamp : Z;
  Level : LogLevel;
  Source : string;
  Message : string;
  Fields : gmap string value
}.

(** [NewLogEntry]; [now] is the reading of [time.Now()].  The [ID] field
    is not listed in the composite literal, so it holds the zero value
    of its type, the empty string. *)
Definition NewLogEntry (now : Z) : LogEntry :=
  {| ID := "";
     Timestamp := now;
     Level := LevelInfo;
     Source := "";
     Message := "";
     Fields := ∅ |}.

Definition set_Level (l : LogLevel) (e : LogEntry) : LogEntry :=
  {| ID := ID e; Timestamp := Timestamp e; Level := l; Source := Source e;
     Message := Message e; Fields := Fields e |}.
Definition set_Source (s : string) (e : LogEntry) : LogEntry :=
  {| ID := ID e; Timestamp := Timestamp e; Level := Level e; Source := s;
     Message := Message e; Fields := Fields e |}.
Definition set_Message (m : string) (e : LogEntry) : LogEntry :=
  {| ID := ID e; Timestamp := Timestamp e; Level := Level e;
     Source := Source e; Message := m; Fields := Fields e |}.
Definition set_Fields (f : gmap string value) (e : LogEntry) : LogEntry :=
  {| ID := ID e; Timestamp := Timestamp e; Level := Level e;
     Source := Source e; Message := Message e; Fields := f |}.

End models.

(** ** [sources/syslog_receiver.go] *)
Module syslog_receiver.
Import gostrings models.

(** The two things the [listener interface{}] slot holds. *)
Inductive listener_kind : Type := UDPConn | TCPListener.

(** [listener_closes] belongs to the object in the [listener] slot: the
    number of times its [Close] has been called. *)
Record SyslogReceiver : Type := {
  addr : string;
  protocol : string;
  listener : option listener_kind;
  listener_closes : nat;
  running : bool
}.

(** What the operating system answers to the three [net] calls of
    [startUDP] and [startTCP] for a given address. *)
Record network : Type := {
  ResolveUDPAddr : string -> error;
  ListenUDP : string -> error;
  ListenTCP : string -> error
}.

Definition set_running (b : bool) (sr : SyslogReceiver) : SyslogReceiver :=
  {| addr := addr sr; protocol := protocol sr;
     listener := listener sr; listener_closes := listener_closes sr;
     running := b |}.
(** [sr.listener = conn], [conn] freshly opened. *)
Definition set_listener (l : listener_kind) (sr : SyslogReceiver)
  : SyslogReceiver :=
  {| addr := addr sr; protocol := protocol sr;
     listener := Some l; listener_closes := 0;
     running := running sr |}.
(** [l.Close()] on the object in the [listener] slot. *)
Definition close_listener (sr : SyslogReceiver) : SyslogReceiver :=
  {| addr := addr sr; protocol := protocol sr;
     listener := listener sr; listener_closes := S (listener_closes sr);
     running := running sr |}.

(** [startUDP], up to the launch of the [readUDP] goroutine. *)
Definition startUDP (net : network) (sr : SyslogReceiver)
  : SyslogReceiver * error :=
  match ResolveUDPAddr net (addr sr) with
  | Some err => (sr, Some ("failed to resolve UDP address: " +:+ err))
  | None =>
      match ListenUDP net (addr sr) with
      | Some err => (sr, Some ("failed to listen on UDP: " +:+ err))
      | None => (set_listener UDPConn sr, None)
      end
  end.

(** [startTCP], up to the launch of the [acceptTCP] goroutine. *)
Definition startTCP (net : network) (sr : SyslogReceiver)
  : SyslogReceiver * error :=
  match ListenTCP net (addr sr) with
  | Some err => (sr, Some ("failed to listen on TCP: " +:+ err))
  | None => (set_listener TCPListener sr, None)
  end.

Definition Start (net : network) (sr : SyslogReceiver)
  : SyslogReceiver * error :=
  if running sr then (sr, Some "syslog receiver already running")
  else
    let sr := set_running true sr in
    if String.eqb (protocol sr) "udp" then startUDP net sr
    else if String.eqb (protocol sr) "tcp" then startTCP net sr
    else (sr, Some ("unsupported protocol: " +:+ protocol sr)).

(** How a call of [Stop] stands: it has returned, or it is blocked in
    [sr.wg.Wait()], the mutex held, until the goroutines the wait group
    counts have returned (it then returns nil). *)
Inductive stopping : Type :=
| Stopped (sr : SyslogReceiver) (err : error)
| Waiting (sr : SyslogReceiver).

(** [Stop]; [live] is the number of goroutines the wait group counts
    that have not returned ([readUDP], [acceptTCP] and the connection
    handlers return once their context is done): [Wait] returns when
    there is none. *)
Definition Stop (live : nat) (sr : SyslogReceiver) : stopping :=
  if negb (running sr) then Stopped sr None
  else
    let sr := set_running false sr in
    (* Close listener *)
    let sr :=
      match listener sr with
      | Some UDPConn => close_listener sr
      | Some TCPListener => close_listener sr
      | None => sr
      end in
    (* Wait for goroutines *)
    if (live =? 0)%nat then Stopped sr None else Waiting sr.

Section with_strings.
(** [strings.ToLower]. *)
Variable ToLower : string -> string.

Definition NewSyslogReceiver (addr protocol : string) : SyslogReceiver :=
  {| addr := addr; protocol := ToLower protocol;
     listener := None; listener_closes := 0; running := false |}.

Definition parseSyslogMessage (now : Z) (sr : SyslogReceiver) (raw : string)
  : LogEntry :=
  let entry := NewLogEntry now in
  let entry := set_Source ("syslog:" +:+ protocol sr) entry in
  let entry := set_Message raw entry in
  (* Try to extract priority (RFC 3164) *)
  let '(entry, raw) :=
    if HasPrefix raw "<" then
      let endIdx := Index raw ">" in
      if (0 <? endIdx) && (endIdx <? 10) then
        (set_Fields
           (<["priority" := VString (slice raw 1 endIdx)]> (Fields entry))
           entry,
         slice_from raw (endIdx + 1))
      else (entry, raw)
    else (entry, raw) in
  (* Store raw message for later parsing *)
  let entry := set_Fields (<["raw" := VString raw]> (Fields entry)) entry in
  (* Simple level detection based on keywords *)
  let lowerMsg := ToLower raw in
  if Contains lowerMsg "crit" || Contains lowerMsg "emerg"
     || Contains lowerMsg "alert"
  then set_Level LevelCritical entry
  else if Contains lowerMsg "err" || Contains lowerMsg "error"
  then set_Level LevelError entry
  else if Contains lowerMsg "warn" then set_Level LevelWarning entry
  else if Contains lowerMsg "debug" then set_Level LevelDebug entry
  else set_Level LevelInfo entry.

Definition Name (sr : SyslogReceiver) : string :=
  "syslog:" +:+ protocol sr +:+ "@" +:+ addr sr.

(** What one turn of the [for] of [readUDP] meets: the context done at
    the top [select]; [ReadFromUDP] failing with a timeout or with another
    error; or [ReadFromUDP] returning [n = len data] bytes, [data] being
    [buffer[:n]], at clock reading [now].  [delivered = false] is a
    context cancelled while the loop is blocked on the send of that
    record. *)
Inductive udp_event : Type :=
| UDPDone
| UDPTimeout
| UDPError (msg : string)
| UDPRead (now : Z) (data : string) (delivered : bool).

(** [readUDP]: the entries delivered on [out], oldest first, and whether
    the function has returned ([false]: it waits for its next read). *)
Fixpoint readUDP (sr : SyslogReceiver) (evs : list udp_event)
    (out : list LogEntry) : list LogEntry * bool :=
  match evs with
  | [] => (out, false)
  | UDPDone :: _ => (out, true)
  | UDPTimeout :: evs' => readUDP sr evs' out
  | UDPError _ :: evs' =>
      (* Log error but continue *)
      readUDP sr evs' out
  | UDPRead now data delivered :: evs' =>
      if 0 <? Z.of_nat (String.length data) then
        let entry := parseSyslogMessage now sr data in
        if delivered then readUDP sr evs' (out ++ [entry])
        else (out, true)
      else readUDP sr evs' out
  end.

(** What one turn of the [for] of [handleTCPConnection] meets: the
    context done; [scanner.Scan()] returning [false]; or [Scan] returning
    [true] with [scanner.Text() = text]. *)
Inductive scan_event : Type :=
| ConnDone
| ScanStop (err : error)
| ScanLine (now : Z) (text : string) (delivered : bool).

Fixpoint handleTCPConnection (sr : SyslogReceiver) (evs : list scan_event)
    (out : list LogEntry) : list LogEntry * bool :=
  match evs with
  | [] => (out, false)
  | ConnDone :: _ => (out, true)
  | ScanStop _ :: _ => (out, true)
  | ScanLine now message delivered :: evs' =>
      if String.eqb message "" then handleTCPConnection sr evs' out
      else
        let entry := parseSyslogMessage now sr message in
        if delivered then handleTCPConnection sr evs' (out ++ [entry])
        else (out, true)
  end.

End with_strings.

End syslog_receiver.

(** ** The output channel [chan<- *models.LogEntry] *)
Module channel.

(** A buffered channel: the entries waiting in it, oldest first, and
    the capacity it was made with.  The consumer acts between the steps
    of a producer, never inside one. *)
Record chan : Type := {
  buffer : list models.LogEntry;
  capacity : nat
}.

Definition make (capacity : nat) : chan :=
  {| buffer := []; capacity := capacity |}.

(** [select { case ch <- e: ...  default: ... }]: [Some] is the channel
    after the send, [None] the [default] branch. *)
Definition try_send (e : models.LogEntry) (ch : chan) : option chan :=
  if (length (buffer ch) <? capacity ch)%nat
  then Some {| buffer := buffer ch ++ [e]; capacity := capacity ch |}
  else None.

End channel.

(** ** [sources/http_receiver.go] *)
Module http_receiver.
Import channel.

Record Server : Type := {
  Addr : string;
  ReadTimeout : Z;
  WriteTimeout : Z
}.

(** [out] names the channel handed to [Start]; the handlers below are
    given the state of that channel. *)
Record HTTPReceiver : Type := {
  addr : string;
  server : option Server;
  running : bool;
  out : option nat
}.

Definition NewHTTPReceiver (addr : string) : HTTPReceiver :=
  {| addr := addr; server := None; running := false; out := None |}.

(** [Start].  The listener is bound by [ListenAndServe] inside the
    goroutine, which only prints what goes wrong: no bind failure
    reaches the value [Start] returns. *)
Definition Start (out : nat) (hr : HTTPReceiver) : HTTPReceiver * error :=
  if running hr then (hr, Some "HTTP receiver already running")
  else
    ({| addr := addr hr;
        server := Some {| Addr := addr hr;
                          ReadTimeout := 10; WriteTimeout := 10 |};
        running := true;
        out := Some out |}, None).

(** [Stop]; [shutdown] is what [server.Shutdown] returns. *)
Definition Stop (shutdown : error) (hr : HTTPReceiver)
  : HTTPReceiver * error :=
  if negb (running hr) then (hr, None)
  else
    let hr := {| addr := addr hr; server := server hr;
                 running := false; out := out hr |} in
    match server hr with
    | Some _ => (hr, shutdown)
    | None => (hr, None)
    end.

(** The anonymous struct both handlers decode into.  [Fields] is [None]
    for a [nil] map. *)
Module logData.
Record t : Type := {
  Level : string;
  Message : string;
  Source : string;
  Fields : option (gmap string models.value)
}.
End logData.

(** A request as a handler sees it: the method, and what [io.ReadAll]
    followed by [json.Unmarshal] make of the body. *)
Inductive payload (A : Type) : Type :=
| ReadFailed
| InvalidJSON
| Decoded (v : A).
Arguments ReadFailed {A}.
Arguments InvalidJSON {A}.
Arguments Decoded {A} v.

Record Request (A : Type) : Type := {
  Method : string;
  Body : payload A
}.
Arguments Method {A} r.
Arguments Body {A} r.

Inductive body : Type :=
| Text (s : string)
| JSON (m : gmap string models.value).

Record Response : Type := {
  StatusCode : Z;
  Written : body
}.

Definition StatusAccepted : Z := 202.
Definition StatusBadRequest : Z := 400.
Definition StatusMethodNotAllowed : Z := 405.
Definition StatusServiceUnavailable : Z := 503.

(** [http.Error]. *)
Definition http_Error (msg : string) (code : Z) : Response :=
  {| StatusCode := code; Written := Text (msg +:+ String "010"%char "") |}.

(** Lines 103-130 of [handleLogs]: the entry built from the decoded
    body. *)
Definition handleLogs_entry (now : Z) (d : logData.t) : models.LogEntry :=
  let entry := models.NewLogEntry now in
  let entry := models.set_Message (logData.Message d) entry in
  let entry := models.set_Source (logData.Source d) entry in
  let entry :=
    if String.eqb (models.Source entry) "" then models.set_Source "http" entry
    else entry in
  (* Parse level *)
  let entry :=
    if String.eqb (logData.Level d) "DEBUG"
    then models.set_Level models.LevelDebug entry
    else if String.eqb (logData.Level d) "INFO"
    then models.set_Level models.LevelInfo entry
    else if String.eqb (logData.Level d) "WARNING"
            || String.eqb (logData.Level d) "WARN"
    then models.set_Level models.LevelWarning entry
    else if String.eqb (logData.Level d) "ERROR"
    then models.set_Level models.LevelError entry
    else if String.eqb (logData.Level d) "CRITICAL"
            || String.eqb (logData.Level d) "CRIT"
    then models.set_Level models.LevelCritical entry
    else models.set_Level models.LevelInfo entry in
  (* Add fields *)
  match logData.Fields d with
  | Some f => models.set_Fields f entry
  | None => entry
  end.

Definition handleLogs (now : Z) (ch : chan) (r : Request logData.t)
  : chan * Response :=
  if negb (String.eqb (Method r) "POST")
  then (ch, http_Error "Method not allowed" StatusMethodNotAllowed)
  else
    match Body r with
    | ReadFailed => (ch, http_Error "Failed to read body" StatusBadRequest)
    | InvalidJSON => (ch, http_Error "Invalid JSON" StatusBadRequest)
    | Decoded d =>
        let entry := handleLogs_entry now d in
        (* Send to channel *)
        match try_send entry ch with
        | Some ch' =>
            (ch', {| StatusCode := StatusAccepted;
                     Written :=
                       JSON (<["status" := models.VString "accepted"]>
                               (<["id" := models.VString (models.ID entry)]>
                                  ∅)) |})
        | None =>
            (ch, http_Error "Channel full" StatusServiceUnavailable)
        end
    end.

(** Lines 173-197 of [handleBatch]: the entry built from one item. *)
Definition handleBatch_entry (now : Z) (d : logData.t) : models.LogEntry :=
  let entry := models.NewLogEntry now in
  let entry := models.set_Message (logData.Message d) entry in
  let entry := models.set_Source (logData.Source d) entry in
  let entry :=
    if String.eqb (models.Source entry) "" then models.set_Source "http" entry
    else entry in
  let entry :=
    if String.eqb (logData.Level d) "DEBUG"
    then models.set_Level models.LevelDebug entry
    else if String.eqb (logData.Level d) "INFO"
    then models.set_Level models.LevelInfo entry
    else if String.eqb (logData.Level d) "WARNING"
            || String.eqb (logData.Level d) "WARN"
    then models.set_Level models.LevelWarning entry
    else if String.eqb (logData.Level d) "ERROR"
    then models.set_Level models.LevelError entry
    else if String.eqb (logData.Level d) "CRITICAL"
            || String.eqb (logData.Level d) "CRIT"
    then models.set_Level models.LevelCritical entry
    else models.set_Level models.LevelInfo entry in
  match logData.Fields d with
  | Some f => models.set_Fields f entry
  | None => entry
  end.

(** The [for _, logData := range logs] loop, threading the channel and
    the [accepted] counter. *)
Fixpoint handleBatch_loop (now : Z) (logs : list logData.t) (ch : chan)
    (accepted : Z) : chan * Z :=
  match logs with
  | [] => (ch, accepted)
  | d :: logs' =>
      let entry := handleBatch_entry now d in
      match try_send entry ch with
      | Some ch' => handleBatch_loop now logs' ch' (accepted + 1)
      | None => (* Channel full, skip *)
          handleBatch_loop now logs' ch accepted
      end
  end.

Definition handleBatch (now : Z) (ch : chan) (r : Request (list logData.t))
  : chan * Response :=
  if negb (String.eqb (Method r) "POST")
  then (ch, http_Error "Method not allowed" StatusMethodNotAllowed)
  else
    match Body r with
    | ReadFailed => (ch, http_Error "Failed to read body" StatusBadRequest)
    | InvalidJSON => (ch, http_Error "Invalid JSON" StatusBadRequest)
    | Decoded logs =>
        let '(ch', accepted) := handleBatch_loop now logs ch 0 in
        (ch', {| StatusCode := StatusAccepted;
                 Written :=
                   JSON (<["status" := models.VString "accepted"]>
                           (<["total" :=
                                models.VInt (Z.of_nat (length logs))]>
                              (<["accepted" := models.VInt accepted]>
                                 ∅))) |})
    end.

Definition Name (hr : HTTPReceiver) : string := "http:" +:+ addr hr.

End http_receiver.

(** ** [sources/file_reader.go] *)
Module file_reader.

(** Conversion to [int64]: the value modulo [2^64], in
    [-2^63 .. 2^63 - 1]. *)
Definition int64 (z : Z) : Z := (z + 2 ^ 63) mod 2 ^ 64 - 2 ^ 63.

(** An [*os.File]: the path it was opened on, the position its reads
    start from, and whether it has been closed. *)
Record File : Type := {
  name : string;
  pos : Z;
  closed : bool
}.

Record FileReader : Type := {
  filepath : string;
  offset : Z;
  pollPeriod : Z;
  file : option File;
  running : bool
}.

(** [pollPeriod] in milliseconds. *)
Definition NewFileReader (filepath : string) : FileReader :=
  {| filepath := filepath; offset := 0; pollPeriod := 100;
     file := None; running := false |}.

Definition set_running (b : bool) (fr : FileReader) : FileReader :=
  {| filepath := filepath fr; offset := offset fr;
     pollPeriod := pollPeriod fr; file := file fr; running := b |}.
Definition set_file (f : File) (fr : FileReader) : FileReader :=
  {| filepath := filepath fr; offset := offset fr;
     pollPeriod := pollPeriod fr; file := Some f; running := running fr |}.
Definition set_offset (o : Z) (fr : FileReader) : FileReader :=
  {| filepath := filepath fr; offset := o;
     pollPeriod := pollPeriod fr; file := file fr; running := running fr |}.

(** What the operating system answers to [os.Open] on a path and to
    [Seek] on the file opened there. *)
Record filesystem : Type := {
  Open : string -> error;
  Seek : string -> Z -> error
}.

(** [Start], up to the launch of the [readLoop] goroutine. *)
Definition Start (sys : filesystem) (fr : FileReader)
  : FileReader * error :=
  if running fr then (fr, Some "file reader already running")
  else
    let fr := set_running true fr in
    (* Open file *)
    match Open sys (filepath fr) with
    | Some err => (fr, Some ("failed to open file: " +:+ err))
    | None =>
        let fr :=
          set_file {| name := filepath fr; pos := 0; closed := false |} fr in
        (* Seek to offset *)
        if 0 <? offset fr then
          match Seek sys (filepath fr) (offset fr) with
          | Some err => (fr, Some ("failed to seek: " +:+ err))
          | None =>
              (set_file {| name := filepath fr; pos := offset fr;
                           closed := false |} fr, None)
          end
        else (fr, None)
    end.

(** [Stop]; closing a file that is closed already is an error. *)
Definition Stop (fr : FileReader) : FileReader * error :=
  if negb (running fr) then (fr, None)
  else
    let fr := set_running false fr in
    match file fr with
    | Some f =>
        if closed f then (fr, Some "file already closed")
        else (set_file {| name := name f; pos := pos f; closed := true |} fr,
              None)
    | None => (fr, None)
    end.

Definition GetOffset (fr : FileReader) : Z := offset fr.

Definition parseSimpleLine (now : Z) (fr : FileReader) (line : string)
  : models.LogEntry :=
  let entry := models.NewLogEntry now in
  let entry := models.set_Source (filepath fr) entry in
  models.set_Message line entry.

(** *** The buffered reader *)

(** The error of a read: [io.EOF], or any other. *)
Inductive read_error : Type :=
| io_EOF
| io_other (msg : string).

(** [cut_line s] splits [s] after its first newline. *)
Fixpoint cut_line (s : string) : option (string * string) :=
  match s with
  | EmptyString => None
  | String c s' =>
      if Ascii.eqb c "010" then Some (String c EmptyString, s')
      else match cut_line s' with
           | Some (line, rest) => Some (String c line, rest)
           | None => None
           end
  end.

(** [drop n s] is [s[n:]], empty when [n] is past the end. *)
Fixpoint drop (n : nat) (s : string) : string :=
  match n, s with
  | O, _ => s
  | S _, EmptyString => EmptyString
  | S n', String _ s' => drop n' s'
  end.

(** [bufio.Reader.ReadString('\n')] on a reader standing at byte
    [reader] of a file that holds [content] and whose reads past
    [content] end in [tail].  It hands out the bytes up to and including
    the first newline; when the data ends first it hands out
    what there is together with the error, and those bytes are consumed
    too.  The result is the string, the error and the reader's new
    position. *)
Definition ReadString (content : string) (tail : read_error) (reader : nat)
  : string * option read_error * nat :=
  match cut_line (drop reader content) with
  | Some (line, _) => (line, None, (reader + String.length line)%nat)
  | None =>
      let rest := drop reader content in
      (rest, Some tail, (reader + String.length rest)%nat)
  end.

(** *** The read loop *)

(** One firing of the ticker: the file as it is then, how reads past
    its data end, the clock, and the moment of cancellation:
    [cancel_after = Some k] is a context cancelled while the loop is
    blocked on its [(k+1)]-th send of this tick, [None] a context that
    stays live through the tick. *)
Record tick : Type := {
  content : string;
  tail : read_error;
  now : Z;
  cancel_after : option nat
}.

(** What the outer [select] receives. *)
Inductive event : Type :=
| Done
| Ticker (t : tick).

(** The loop's variables: the receiver, the position of the buffered
    reader, and the entries delivered on [out] so far, oldest first. *)
Record loop_state : Type := {
  fr : FileReader;
  reader : nat;
  out : list models.LogEntry
}.

(** How the inner [for] ends: [break] (wait for the next tick),
    [return], or with the fuel of the model used up. *)
Inductive flow : Type :=
| Break (s : loop_state)
| Return (s : loop_state)
| Exhausted.

Definition cancelled (t : tick) (sent : nat) : bool :=
  match cancel_after t with
  | Some k => (k <=? sent)%nat
  | None => false
  end.

(** The inner [for] of lines 77-102; [sent] counts the sends of this
    tick. *)
Fixpoint read_lines (fuel : nat) (t : tick) (sent : nat) (s : loop_state)
  : flow :=
  match fuel with
  | O => Exhausted
  | S fuel' =>
      let '(line, err, reader') :=
        ReadString (content t) (tail t) (reader s) in
      match err with
      | Some io_EOF =>
          (* No more data, wait for next tick *)
          Break {| fr := fr s; reader := reader'; out := out s |}
      | Some (io_other _) =>
          (* Log error but continue *)
          Return {| fr := fr s; reader := reader'; out := out s |}
      | None =>
          (* Update offset *)
          let fr' :=
            set_offset
              (int64 (offset (fr s) + int64 (Z.of_nat (String.length line))))
              (fr s) in
          let entry := parseSimpleLine (now t) fr' line in
          if cancelled t sent
          then Return {| fr := fr'; reader := reader'; out := out s |}
          else read_lines fuel' t (S sent)
                 {| fr := fr'; reader := reader'; out := out s ++ [entry] |}
      end
  end.

(** Where a run of [readLoop] stands once its events are used up:
    blocked in the outer [select], or returned. *)
Inductive run : Type :=
| Waiting (s : loop_state)
| Exited (s : loop_state)
| Stuck.

(** [defer fr.Stop()]. *)
Definition exit (s : loop_state) : run :=
  Exited {| fr := fst (Stop (fr s)); reader := reader s; out := out s |}.

(** The outer [for]/[select] of [readLoop]. *)
Fixpoint loop (evs : list event) (s : loop_state) : run :=
  match evs with
  | [] => Waiting s
  | Done :: _ => exit s
  | Ticker t :: evs' =>
      match read_lines (S (String.length (content t))) t 0 s with
      | Break s' => loop evs' s'
      | Return s' => exit s'
      | Exhausted => Stuck
      end
  end.

(** [readLoop] as launched by a successful [Start]: the buffered reader
    begins where [Start] left the file. *)
Definition readLoop (evs : list event) (fr : FileReader) : run :=
  loop evs
    {| fr := fr;
       reader := match file fr with
                 | Some f => Z.to_nat (pos f)
                 | None => O
                 end;
       out := [] |}.

Definition Name (fr : FileReader) : string := "file:" +:+ filepath fr.

End file_reader.

(** ** [tools/send_syslog]: the test sender *)
Module send_syslog.

(** What the network answers to [net.Dial] and to [conn.Write]. *)
Record network : Type := {
  Dial : string -> string -> error;
  Write : string -> string -> string -> error
}.

(** How a run ends: the exit status, and the bytes handed to a [Write]
    that succeeded, with the network and address they went to. *)
Record result : Type := {
  status : Z;
  written : option (string * string * string)
}.

Definition sendUDP (net : network) (address message : string) : result :=
  match Dial net "udp" address with
  | Some _ => {| status := 1; written := None |}
  | None =>
      match Write net "udp" address message with
      | Some _ => {| status := 1; written := None |}
      | None => {| status := 0; written := Some ("udp", address, message) |}
      end
  end.

Definition sendTCP (net : network) (address message : string) : result :=
  match Dial net "tcp" address with
  | Some _ => {| status := 1; written := None |}
  | None =>
      (* Add newline for TCP *)
      let message :=
        if gostrings.lacks_newline message
        then message +:+ String "010"%char EmptyString
        else message in
      match Write net "tcp" address message with
      | Some _ => {| status := 1; written := None |}
      | None => {| status := 0; written := Some ("tcp", address, message) |}
      end
  end.

(** [main]; [args] is [os.Args]. *)
Definition main (net : network) (args : list string) : result :=
  if (length args <? 4)%nat then {| status := 1; written := None |}
  else
    let protocol := nth 1 args EmptyString in
    let address := nth 2 args EmptyString in
    let message := nth 3 args EmptyString in
    if String.eqb protocol "udp" then sendUDP net address message
    else if String.eqb protocol "tcp" then sendTCP net address message
    else {| status := 1; written := None |}.

End send_syslog.

(** ** [cmd/collector]: the entry point with a mode selector *)
Module collector.

(** What the operating system answers: [filepath.Clean], whether
    [os.Stat] reports that the path does not exist, and the answers the
    sources get. *)
Record system : Type := {
  Clean : string -> string;
  NotExist : string -> bool;
  Abs : string -> string;
  files : file_reader.filesystem;
  net : syslog_receiver.network
}.

(** The source a mode constructed, as its [Start] left it. *)
Inductive source : Type :=
| File (fr : file_reader.FileReader)
| Syslog (sr : syslog_receiver.SyslogReceiver)
| HTTP (hr : http_receiver.HTTPReceiver).

Definition startFileMode (sys : system) (args : list string)
  : option source * error :=
  if (length args <? 3)%nat then (None, Some "file path required")
  else
    let logFile := nth 2 args EmptyString in
    let logFile := Clean sys logFile in
    if NotExist sys logFile then
      (None, Some ("file not found: " +:+ logFile +:+ " (absolute: "
                   +:+ Abs sys logFile +:+ ")"))
    else
      let reader := file_reader.NewFileReader logFile in
      let '(reader, err) := file_reader.Start (files sys) reader in
      (Some (File reader), err).

Section with_lowercasing.
(** [strings.ToLower], which [NewSyslogReceiver] calls. *)
Variable ToLower : string -> string.

Definition startSyslogMode (sys : system) (args : list string)
  : option source * error :=
  if (length args <? 4)%nat then (None, Some "protocol and address required")
  else
    let protocol := nth 2 args EmptyString in
    let addr := nth 3 args EmptyString in
    let receiver := syslog_receiver.NewSyslogReceiver ToLower addr protocol in
    let '(receiver, err) := syslog_receiver.Start (net sys) receiver in
    (Some (Syslog receiver), err).

Definition startHTTPMode (logChan : nat) (args : list string)
  : option source * error :=
  if (length args <? 3)%nat then (None, Some "address required")
  else
    let addr := nth 2 args EmptyString in
    let receiver := http_receiver.NewHTTPReceiver addr in
    let '(receiver, err) := http_receiver.Start logChan receiver in
    (Some (HTTP receiver), err).

(** What [processLogs] prints for one entry: the [Printf], then the
    [Println] when the message is not empty and does not end in a
    newline.  [format] is [Timestamp.Format(time.RFC3339)]. *)
Definition processLogs_entry (format : Z -> string) (count : Z)
    (entry : models.LogEntry) : string :=
  "[" +:+ pretty count +:+ "] "
  +:+ format (models.Timestamp entry)
  +:+ " [" +:+ models.Level entry +:+ "] "
  +:+ models.Source entry +:+ ": " +:+ models.Message entry
  +:+ (if gostrings.lacks_newline (models.Message entry)
       then String "010"%char EmptyString else EmptyString).


(** Where [main] gets to: an exit with a status, or the wait for a
    signal ([Serving], with what the mode constructed), which a signal
    ends in a normal return. *)
Inductive outcome : Type :=
| Exit (code : Z)
| Serving (src : option source).

(** [main]; [args] is [os.Args] and [logChan] names the channel it
    makes. *)
Definition main (sys : system) (logChan : nat) (args : list string)
  : outcome :=
  if (length args <? 2)%nat then Exit 1
  else
    let mode := nth 1 args EmptyString in
    let started :=
      if String.eqb mode "file" then Some (startFileMode sys args)
      else if String.eqb mode "syslog" then Some (startSyslogMode sys args)
      else if String.eqb mode "http" then Some (startHTTPMode logChan args)
      else None in
    match started with
    | None => Exit 1
    | Some (_, Some _) => Exit 1
    | Some (src, None) => Serving src
    end.

End with_lowercasing.

End collector.

(** ** Vocabulary of the statements *)

(** [occurs sub s]: [sub] is a substring of [s]. *)
Definition occurs (sub s : string) : Prop :=
  exists pre post, s = pre +:+ sub +:+ post.

(** The one-byte string ["\n"]. *)
Definition newline : string := String "010" EmptyString.

(** [tagged raw p rest]: [raw] is ["<" p ">" rest] where [p] holds no
    ['>'] and that first ['>'] stands within the first 10 bytes of [raw],
    at index [1 + len p <= 9]. *)
Definition tagged (raw p rest : string) : Prop :=
  raw = "<" +:+ p +:+ ">" +:+ rest /\
  ~ occurs ">" p /\
  (String.length p < 9)%nat.

(** [level_table f]: [f] maps the seven level names as the HTTP interface
    documents them, and every other string to INFO. *)
Definition level_table (f : string -> models.LogLevel) : Prop :=
  f "DEBUG" = models.LevelDebug /\
  f "INFO" = models.LevelInfo /\
  f "WARNING" = models.LevelWarning /\
  f "WARN" = models.LevelWarning /\
  f "ERROR" = models.LevelError /\
  f "CRITICAL" = models.LevelCritical /\
  f "CRIT" = models.LevelCritical /\
  (forall s : string,
      s ∉ ["DEBUG"; "INFO"; "WARNING"; "WARN"; "ERROR"; "CRITICAL"; "CRIT"] ->
      f s = models.LevelInfo).

(** A [POST] request whose body decoded to [v]. *)
Definition post {A : Type} (v : A) : http_receiver.Request A :=
  {| http_receiver.Method := "POST";
     http_receiver.Body := http_receiver.Decoded v |}.

(** A file system on which every path opens and every seek succeeds. *)
Definition sound_fs : file_reader.filesystem :=
  {| file_reader.Open := fun _ => None;
     file_reader.Seek := fun _ _ => None |}.

(** [poll c n]: the ticker fires at time [n] with the file holding [c];
    reads past its data end in [io.EOF] and the context stays live. *)
Definition poll (c : string) (n : Z) : file_reader.event :=
  file_reader.Ticker
    {| file_reader.content := c; file_reader.tail := file_reader.io_EOF;
       file_reader.now := n; file_reader.cancel_after := None |}.

(** No tick of [evs] has its context cancelled during a send. *)
Definition sends_complete (evs : list file_reader.event) : Prop :=
  Forall (fun ev => match ev with
                    | file_reader.Ticker t => file_reader.cancel_after t = None
                    | file_reader.Done => True
                    end) evs.

(** Total byte length of the messages of a list of entries. *)
Definition total_length (es : list models.LogEntry) : Z :=
  foldr (fun e acc => Z.of_nat (String.length (models.Message e)) + acc) 0 es.

(** [ends_with_newline s]: the last byte of [s] is a newline. *)
Definition ends_with_newline (s : string) : Prop :=
  exists body, s = body +:+ newline.

(** [single_line s]: [s] is one line, its terminating newline included
    and no newline before it. *)
Definition single_line (s : string) : Prop :=
  exists body, s = body +:+ newline /\ ~ occurs newline body.

(** [whole_lines s]: [s] is a sequence of complete lines, possibly
    none. *)
Definition whole_lines (s : string) : Prop :=
  s = "" \/ ends_with_newline s.

(** The messages of a list of entries, one after the other. *)
Definition concat_messages (es : list models.LogEntry) : string :=
  foldr (fun e acc => models.Message e +:+ acc) "" es.

(** The chunks of a list, one after the other. *)
Definition concat_chunks (ds : list (string * Z)) : string :=
  foldr (fun d acc => fst d +:+ acc) "" ds.

(** [appends c ds]: the polls of a file that holds [c] and to which the
    chunks [ds] are appended, one before each poll; each chunk comes with
    the clock reading of its poll. *)
Fixpoint appends (c : string) (ds : list (string * Z))
  : list file_reader.event :=
  match ds with
  | [] => []
  | d :: ds' => poll (c +:+ fst d) (snd d) :: appends (c +:+ fst d) ds'
  end.

(** The reads of a run of [readUDP] that carry data, with their clock
    readings, in arrival order. *)
Definition udp_reads (evs : list syslog_receiver.udp_event)
  : list (Z * string) :=
  omap (fun ev => match ev with
                  | syslog_receiver.UDPRead n d _ =>
                      if String.eqb d "" then None else Some (n, d)
                  | _ => None
                  end) evs.

(** No event of [evs] makes [readUDP] return: the context is never done
    and no send is cut short. *)
Definition udp_live (evs : list syslog_receiver.udp_event) : Prop :=
  Forall (fun ev => match ev with
                    | syslog_receiver.UDPDone => False
                    | syslog_receiver.UDPRead _ d delivered =>
                        d = "" \/ delivered = true
                    | _ => True
                    end) evs.

(** The non-empty lines of a run of [handleTCPConnection], with their
    clock readings, in arrival order. *)
Definition tcp_lines (evs : list syslog_receiver.scan_event)
  : list (Z * string) :=
  omap (fun ev => match ev with
                  | syslog_receiver.ScanLine n d _ =>
                      if String.eqb d "" then None else Some (n, d)
                  | _ => None
                  end) evs.

(** No event of [evs] makes [handleTCPConnection] return. *)
Definition tcp_live (evs : list syslog_receiver.scan_event) : Prop :=
  Forall (fun ev => match ev with
                    | syslog_receiver.ScanLine _ d delivered =>
                        d = "" \/ delivered = true
                    | _ => False
                    end) evs.

(** The records a receiver makes of a list of messages. *)
Definition syslog_records (ToLower : string -> string)
    (sr : syslog_receiver.SyslogReceiver)
    (msgs : list (Z * string)) : list models.LogEntry :=
  map (fun m => syslog_receiver.parseSyslogMessage ToLower (fst m) sr (snd m))
      msgs.


(** [lower_on_ascii lower]: on the strings of ASCII bytes only, [lower]
    is the byte-wise mapping, as [strings.ToLower] is. *)
Definition lower_on_ascii (lower : string -> string) : Prop :=
  forall s : string,
    gostrings.is_ascii s = true -> lower s = gostrings.lower_ascii s.

(** [post_each now logs ch]: the items of [logs] posted one by one to
    [/logs]; the queue after the last one and the number of 202
    answers. *)
Fixpoint post_each (now : Z) (logs : list http_receiver.logData.t)
    (ch : channel.chan) : channel.chan * Z :=
  match logs with
  | [] => (ch, 0)
  | d :: logs' =>
      let '(ch', resp) := http_receiver.handleLogs now ch (post d) in
      let '(ch'', k) := post_each now logs' ch' in
      (ch'', (if http_receiver.StatusCode resp =? 202 then 1 else 0) + k)
  end.


(** The lifecycle flag of the source a mode started. *)
Definition source_running (src : collector.source) : bool :=
  match src with
  | collector.File fr => file_reader.running fr
  | collector.Syslog sr => syslog_receiver.running sr
  | collector.HTTP hr => http_receiver.running hr
  end.

(** * Facts about the string operations *)
Section string_facts.
Import gostrings.

Lemma append_nil_l (s : string) : "" +:+ s = s.
Proof. reflexivity. Qed.

Lemma append_cons (c : ascii) (s t : string) :
  String c s +:+ t = String c (s +:+ t).
Proof. reflexivity. Qed.

Lemma append_assoc (a b c : string) : (a +:+ b) +:+ c = a +:+ (b +:+ c).
Proof.
  induction a as [|x a IH]; [reflexivity |]. now rewrite !append_cons, IH.
Qed.

Lemma length_append (a b : string) :
  String.length (a +:+ b) = (String.length a + String.length b)%nat.
Proof.
  induction a as [|x a IH]; [reflexivity |].
  rewrite append_cons. simpl. now rewrite IH.
Qed.

Lemma HasPrefix_nil (s : string) : HasPrefix s "" = true.
Proof. destruct s; reflexivity. Qed.

Lemma HasPrefix_append (p t : string) : HasPrefix (p +:+ t) p = true.
Proof.
  induction p as [|c p IH]; [apply HasPrefix_nil |].
  rewrite append_cons. simpl. now rewrite Ascii.eqb_refl.
Qed.

Lemma HasPrefix_inv (s p : string) :
  HasPrefix s p = true -> exists t, s = p +:+ t.
Proof.
  revert s; induction p as [|c p IH]; intros s H.
  - exists s; reflexivity.
  - destruct s as [|d s]; simpl in H; [discriminate |].
    destruct (Ascii.eqb_spec c d) as [->|]; [| discriminate].
    destruct (IH s H) as [t ->]. now exists t.
Qed.

Lemma Index_unfold (s sub : string) :
  Index s sub =
    if HasPrefix s sub then 0
    else match s with
         | EmptyString => -1
         | String _ s' =>
             if Index s' sub <? 0 then -1 else Index s' sub + 1
         end.
Proof. destruct s; reflexivity. Qed.







(** The first occurrence of a single byte. *)
Lemma occurs_cons_inv (c a : ascii) (p : string) :
  ~ occurs (String c "") (String a p) ->
  a <> c /\ ~ occurs (String c "") p.
Proof.
  intros H. split.
  - intros ->. apply H. now exists "", p.
  - intros (pre & post & ->). apply H. now exists (String a pre), post.
Qed.

Lemma Index_byte_first (p rest : string) (c : ascii) :
  ~ occurs (String c "") p ->
  Index (p +:+ String c rest) (String c "") = Z.of_nat (String.length p).
Proof.
  induction p as [|a p IH]; intros H.
  - rewrite append_nil_l. simpl. now rewrite Ascii.eqb_refl, HasPrefix_nil.
  - apply occurs_cons_inv in H as [Hne Hp].
    rewrite append_cons, Index_unfold. simpl HasPrefix.
    destruct (Ascii.eqb_spec c a) as [->|_]; [congruence |].
    rewrite (IH Hp).
    destruct (Z.ltb_spec (Z.of_nat (String.length p)) 0);
      simpl String.length; lia.
Qed.

Lemma Index_byte_inv (s : string) (c : ascii) :
  0 <= Index s (String c "") ->
  exists p rest,
    s = p +:+ String c rest /\
    Index s (String c "") = Z.of_nat (String.length p) /\
    ~ occurs (String c "") p.
Proof.
  induction s as [|a s IH]; rewrite Index_unfold; simpl HasPrefix.
  - lia.
  - destruct (Ascii.eqb_spec c a) as [->|Hne].
    + rewrite HasPrefix_nil. intros _. exists "", s.
      repeat split. intros (pre & post & E). destruct pre; discriminate.
    + destruct (Z.ltb_spec (Index s (String c "")) 0) as [|Hge]; [lia |].
      intros _. destruct (IH Hge) as (p & rest & -> & Hi & Hp).
      exists (String a p), rest. repeat split.
      * rewrite Hi. simpl String.length. lia.
      * intros (pre & post & E). destruct pre as [|x pre].
        -- rewrite append_nil_l, append_cons in E. congruence.
        -- rewrite append_cons in E. injection E as _ E.
           apply Hp. now exists pre, post.
Qed.

Lemma substring_0_append (p q : string) :
  substring 0 (String.length p) (p +:+ q) = p.
Proof.
  induction p as [|c p IH]; [now destruct q |].
  rewrite append_cons. simpl. now rewrite IH.
Qed.

Lemma substring_skip (p q : string) (n m : nat) :
  substring (String.length p + n) m (p +:+ q) = substring n m q.
Proof.
  induction p as [|c p IH]; [reflexivity |]. rewrite append_cons. exact IH.
Qed.

Lemma substring_full (s : string) : substring 0 (String.length s) s = s.
Proof. induction s as [|c s IH]; simpl; [reflexivity | now rewrite IH]. Qed.

End string_facts.

(** * The syslog parser *)
Section syslog_facts.
Import gostrings models syslog_receiver.

(** [strings.ToLower]: what follows holds whatever function it is. *)
Variable ToLower : string -> string.

Ltac level_cases :=
  repeat match goal with
         | |- context [if ?c then _ else _] => destruct c
         end.

Lemma parse_raw_level (now : Z) (sr : SyslogReceiver) (raw : string) :
  exists rem,
    Fields (parseSyslogMessage ToLower now sr raw) !! "raw" = Some (VString rem) /\
    Level (parseSyslogMessage ToLower now sr raw) =
      let lowerMsg := ToLower rem in
      if Contains lowerMsg "crit" || Contains lowerMsg "emerg"
         || Contains lowerMsg "alert"
      then LevelCritical
      else if Contains lowerMsg "err" || Contains lowerMsg "error"
      then LevelError
      else if Contains lowerMsg "warn" then LevelWarning
      else if Contains lowerMsg "debug" then LevelDebug
      else LevelInfo.
Proof.
  unfold parseSyslogMessage.
  destruct (HasPrefix raw "<");
    [destruct ((0 <? Index raw ">") && (Index raw ">" <? 10)) |];
    eexists; (split; [level_cases; simpl; apply lookup_insert_eq |]);
    cbv zeta; level_cases; reflexivity.
Qed.

Lemma tag_prefix (p rest : string) :
  HasPrefix ("<" +:+ p +:+ ">" +:+ rest) "<" = true.
Proof. apply HasPrefix_append. Qed.

Lemma tag_index (p rest : string) :
  ~ occurs ">" p ->
  Index ("<" +:+ p +:+ ">" +:+ rest) ">" = 1 + Z.of_nat (String.length p).
Proof.
  intros Hp.
  change ("<" +:+ p +:+ ">" +:+ rest) with (String "<" p +:+ String ">" rest).
  rewrite Index_byte_first.
  - simpl String.length. lia.
  - intros (pre & post & E). destruct pre as [|x pre].
    + rewrite append_nil_l, append_cons in E. discriminate.
    + rewrite append_cons in E. injection E as _ E.
      apply Hp. now exists pre, post.
Qed.

Lemma tag_slice (p rest : string) :
  slice ("<" +:+ p +:+ ">" +:+ rest) 1 (1 + Z.of_nat (String.length p)) = p.
Proof.
  unfold slice.
  replace (Z.to_nat (1 + Z.of_nat (String.length p) - 1))
    with (String.length p) by lia.
  change (Z.to_nat 1) with 1%nat.
  change ("<" +:+ p +:+ ">" +:+ rest) with (String "<" (p +:+ ">" +:+ rest)).
  simpl substring. apply substring_0_append.
Qed.

Lemma tag_slice_from (p rest : string) :
  slice_from ("<" +:+ p +:+ ">" +:+ rest)
    (1 + Z.of_nat (String.length p) + 1) = rest.
Proof.
  unfold slice_from, slice.
  replace ("<" +:+ p +:+ ">" +:+ rest) with (("<" +:+ p +:+ ">") +:+ rest)
    by now rewrite !append_assoc.
  rewrite length_append.
  assert (Hl : String.length ("<" +:+ p +:+ ">") = (String.length p + 2)%nat).
  { rewrite !length_append. simpl. lia. }
  replace (Z.to_nat (1 + Z.of_nat (String.length p) + 1))
    with (String.length ("<" +:+ p +:+ ">") + 0)%nat by lia.
  rewrite substring_skip.
  replace (Z.to_nat _) with (String.length rest) by lia.
  apply substring_full.
Qed.

(** The code's test for a tag, read back as a decomposition. *)
Lemma tag_test_inv (raw : string) :
  HasPrefix raw "<" = true ->
  (0 <? Index raw ">") && (Index raw ">" <? 10) = true ->
  exists p rest, tagged raw p rest.
Proof.
  intros Hpre Hidx. apply andb_true_iff in Hidx as [H0 H10].
  apply Z.ltb_lt in H0, H10.
  destruct (HasPrefix_inv _ _ Hpre) as [t Ht].
  destruct (Index_byte_inv raw ">") as (p0 & rest & E & Hi & Hp0); [lia |].
  destruct p0 as [|x p].
  - simpl in Hi. lia.
  - exists p, rest. rewrite E, append_cons in Ht.
    change ("<" +:+ t) with (String "<" t) in Ht. injection Ht as -> _.
    repeat split.
    + exact E.
    + intros (pre & post & ->). apply Hp0. now exists (String "<" pre), post.
    + simpl String.length in Hi. lia.
Qed.

Lemma parse_tagged (now : Z) (sr : SyslogReceiver) (raw p rest : string) :
  tagged raw p rest ->
  Fields (parseSyslogMessage ToLower now sr raw) !! "priority" = Some (VString p) /\
  Fields (parseSyslogMessage ToLower now sr raw) !! "raw" = Some (VString rest).
Proof.
  intros (-> & Hp & Hlen). unfold parseSyslogMessage.
  rewrite tag_prefix, (tag_index _ _ Hp).
  replace ((0 <? 1 + Z.of_nat (String.length p))
           && (1 + Z.of_nat (String.length p) <? 10)) with true
    by (symmetry; apply andb_true_iff; split; apply Z.ltb_lt; lia).
  rewrite tag_slice, tag_slice_from.
  split; level_cases; simpl.
  all: try apply lookup_insert_eq.
  all: rewrite lookup_insert_ne by discriminate; apply lookup_insert_eq.
Qed.

Lemma parse_untagged (now : Z) (sr : SyslogReceiver) (raw : string) :
  ~ (exists p rest, tagged raw p rest) ->
  Fields (parseSyslogMessage ToLower now sr raw) !! "raw" = Some (VString raw) /\
  Fields (parseSyslogMessage ToLower now sr raw) !! "priority" = None.
Proof.
  intros Hno. unfold parseSyslogMessage.
  destruct (HasPrefix raw "<") eqn:Hpre;
    [destruct ((0 <? Index raw ">") && (Index raw ">" <? 10)) eqn:Hidx |].
  { exfalso. apply Hno. now apply tag_test_inv. }
  all: split; level_cases; simpl.
  all: try apply lookup_insert_eq.
  all: rewrite lookup_insert_ne by discriminate; apply lookup_empty.
Qed.

(** C7. A message that begins with ['<'] and whose first ['>'] stands
    within its first 10 bytes has the text between the two stored as
    [fields["priority"]] and the text after the ['>'] stored verbatim
    as [fields["raw"]]; ["<34>Test message"] gives priority ["34"] and
    raw ["Test message"].  For any other message [fields["raw"]] is the
    whole message and there is no priority field. *)
Theorem syslog_priority_extraction (now : Z) (sr : SyslogReceiver) :
  (forall raw p rest,
      tagged raw p rest ->
      Fields (parseSyslogMessage ToLower now sr raw) !! "priority"
        = Some (VString p) /\
      Fields (parseSyslogMessage ToLower now sr raw) !! "raw"
        = Some (VString rest)) /\
  (Fields (parseSyslogMessage ToLower now sr "<34>Test message") !! "priority"
     = Some (VString "34") /\
   Fields (parseSyslogMessage ToLower now sr "<34>Test message") !! "raw"
     = Some (VString "Test message")) /\
  (forall raw,
      ~ (exists p rest, tagged raw p rest) ->
      Fields (parseSyslogMessage ToLower now sr raw) !! "raw"
        = Some (VString raw) /\
      Fields (parseSyslogMessage ToLower now sr raw) !! "priority" = None).
Proof.
  split; [| split].
  - intros raw p rest. apply parse_tagged.
  - apply parse_tagged. repeat split.
    + intros (pre & post & E).
      destruct pre as [|a [|b [|c pre]]]; discriminate.
    + simpl. lia.
  - intros raw. apply parse_untagged.
Qed.


(** C10. The [Message] of the parsed record is the complete input,
    leading priority tag included; the tag is removed only from the
    value stored as [fields["raw"]]. *)
Theorem syslog_message_verbatim (now : Z) (sr : SyslogReceiver) :
  (forall raw, Message (parseSyslogMessage ToLower now sr raw) = raw) /\
  Message (parseSyslogMessage ToLower now sr "<34>Test message")
    = "<34>Test message" /\
  Fields (parseSyslogMessage ToLower now sr "<34>Test message") !! "raw"
    = Some (VString "Test message").
Proof.
  assert (H : forall raw, Message (parseSyslogMessage ToLower now sr raw) = raw).
  { intros raw. unfold parseSyslogMessage.
    destruct (HasPrefix raw "<");
      [destruct ((0 <? Index raw ">") && (Index raw ">" <? 10)) |];
      level_cases; reflexivity. }
  split; [exact H | split; [apply H |]].
  apply (parse_tagged now sr "<34>Test message" "34" "Test message").
  repeat split.
  - intros (pre & post & E).
    destruct pre as [|a [|b [|c pre]]]; discriminate.
  - simpl. lia.
Qed.

End syslog_facts.

(** The statements above at the byte-wise lower-casing, which is
    [strings.ToLower] on the ASCII messages of these examples. *)
Section syslog_examples.
Import gostrings models syslog_receiver.


Lemma syslog_priority_extraction_witness :
  let sr := NewSyslogReceiver lower_ascii ":514" "udp" in
  tagged "<13>disk full" "13" "disk full" /\
  (Fields (parseSyslogMessage lower_ascii 0 sr "<13>disk full") !! "priority"
     = Some (VString "13") /\
   Fields (parseSyslogMessage lower_ascii 0 sr "<13>disk full") !! "raw"
     = Some (VString "disk full")) /\
  ~ (exists p rest, tagged "no tag here" p rest) /\
  (Fields (parseSyslogMessage lower_ascii 0 sr "no tag here") !! "raw"
     = Some (VString "no tag here") /\
   Fields (parseSyslogMessage lower_ascii 0 sr "no tag here") !! "priority"
     = None).
Proof.
  intros sr.
  assert (Ht : tagged "<13>disk full" "13" "disk full").
  { repeat split.
    - intros (pre & post & E).
      destruct pre as [|a [|b [|c pre]]]; discriminate.
    - simpl. lia. }
  assert (Hn : ~ (exists p rest, tagged "no tag here" p rest)).
  { intros (p & rest & E & _). discriminate. }
  destruct (syslog_priority_extraction lower_ascii 0 sr)
    as (Htag & _ & Hplain).
  exact (conj Ht (conj (Htag _ _ _ Ht) (conj Hn (Hplain _ Hn)))).
Defined.

(** The keywords are looked for in the remainder only: a keyword inside
    a priority tag, which is stripped first, does not count. *)
Lemma keyword_in_stripped_tag_is_not_seen :
  let sr := NewSyslogReceiver lower_ascii ":514" "udp" in
  Fields (parseSyslogMessage lower_ascii 0 sr "<critical>error") !! "raw"
    = Some (VString "error") /\
  Level (parseSyslogMessage lower_ascii 0 sr "<critical>error") = LevelError.
Proof. split; vm_compute; reflexivity. Qed.


End syslog_examples.

(** * The HTTP receiver *)
Section http_facts.
Import models channel http_receiver.

Ltac level_rows src flds :=
  unfold level_table, handleLogs_entry, handleBatch_entry;
  cbn [logData.Level logData.Message logData.Source logData.Fields];
  repeat split; try (destruct (String.eqb _ ""), flds; reflexivity);
  let s := fresh "s" in
  let Hs := fresh "Hs" in
  intros s Hs; rewrite !not_elem_of_cons in Hs;
  destruct Hs as (H1 & H2 & H3 & H4 & H5 & H6 & H7 & _);
  apply String.eqb_neq in H1, H2, H3, H4, H5, H6, H7;
  rewrite H1, H2, H3, H4, H5, H6, H7;
  destruct (String.eqb _ ""), flds; reflexivity.

Lemma handleLogs_entry_level (now : Z) (msg src : string)
    (flds : option (gmap string value)) :
  level_table (fun lvl =>
    Level (handleLogs_entry now
             {| logData.Level := lvl; logData.Message := msg;
                logData.Source := src; logData.Fields := flds |})).
Proof. level_rows src flds. Qed.

Lemma handleBatch_entry_level (now : Z) (msg src : string)
    (flds : option (gmap string value)) :
  level_table (fun lvl =>
    Level (handleBatch_entry now
             {| logData.Level := lvl; logData.Message := msg;
                logData.Source := src; logData.Fields := flds |})).
Proof. level_rows src flds. Qed.

(** C5. On both endpoints the submitted level string "DEBUG" gives
    DEBUG, "INFO" gives INFO, "WARNING" and "WARN" give WARNING, "ERROR"
    gives ERROR, "CRITICAL" and "CRIT" give CRITICAL, and every other
    string gives INFO: so do the absent level (the empty string) and a
    level in another case. *)
Theorem http_level_mapping (now : Z) (msg src : string)
    (flds : option (gmap string value)) :
  let logs_level lvl :=
    Level (handleLogs_entry now
             {| logData.Level := lvl; logData.Message := msg;
                logData.Source := src; logData.Fields := flds |}) in
  let batch_level lvl :=
    Level (handleBatch_entry now
             {| logData.Level := lvl; logData.Message := msg;
                logData.Source := src; logData.Fields := flds |}) in
  level_table logs_level /\ level_table batch_level /\
  logs_level "" = LevelInfo /\ batch_level "" = LevelInfo /\
  logs_level "error" = LevelInfo /\ batch_level "error" = LevelInfo.
Proof.
  intros logs_level batch_level.
  split; [apply handleLogs_entry_level |].
  split; [apply handleBatch_entry_level |].
  unfold logs_level, batch_level, handleLogs_entry, handleBatch_entry.
  cbn [logData.Level logData.Message logData.Source logData.Fields].
  repeat split; destruct (String.eqb _ ""), flds; reflexivity.
Qed.

Lemma http_level_mapping_witness :
  ("Warning" ∉
     ["DEBUG"; "INFO"; "WARNING"; "WARN"; "ERROR"; "CRITICAL"; "CRIT"])
  /\ Level (handleLogs_entry 0
              {| logData.Level := "Warning"; logData.Message := "m";
                 logData.Source := "s"; logData.Fields := None |})
     = LevelInfo
  /\ Level (handleBatch_entry 0
              {| logData.Level := "Warning"; logData.Message := "m";
                 logData.Source := "s"; logData.Fields := None |})
     = LevelInfo.
Proof.
  assert (H : "Warning" ∉
              ["DEBUG"; "INFO"; "WARNING"; "WARN"; "ERROR"; "CRITICAL"; "CRIT"]).
  { rewrite !not_elem_of_cons. repeat split; try discriminate.
    apply not_elem_of_nil. }
  destruct (http_level_mapping 0 "m" "s" None) as (Hl & Hb & _).
  exact (conj H
           (conj (proj2 (proj2 (proj2 (proj2 (proj2 (proj2 (proj2 Hl))))))
                    "Warning" H)
                 (proj2 (proj2 (proj2 (proj2 (proj2 (proj2 (proj2 Hb))))))
                    "Warning" H))).
Defined.

(** The channel after a successful send. *)
Lemma try_send_free (e : LogEntry) (ch : chan) :
  (length (buffer ch) < capacity ch)%nat ->
  try_send e ch
    = Some {| buffer := buffer ch ++ [e]; capacity := capacity ch |}.
Proof.
  intros H. unfold try_send.
  now destruct (Nat.ltb_spec (length (buffer ch)) (capacity ch)); [| lia].
Qed.

Lemma try_send_full (e : LogEntry) (ch : chan) :
  (capacity ch <= length (buffer ch))%nat -> try_send e ch = None.
Proof.
  intros H. unfold try_send.
  now destruct (Nat.ltb_spec (length (buffer ch)) (capacity ch)); [lia |].
Qed.

(** The batch loop admits the items that find room, in order, and
    counts them. *)
Lemma handleBatch_loop_spec (now : Z) (logs : list logData.t) :
  forall (ch : chan) (accepted : Z),
    let admitted := take (capacity ch - length (buffer ch)) logs in
    handleBatch_loop now logs ch accepted
      = ({| buffer := buffer ch ++ map (handleBatch_entry now) admitted;
            capacity := capacity ch |},
         accepted + Z.of_nat (length admitted)).
Proof.
  induction logs as [|d logs IH]; intros ch accepted; simpl.
  - rewrite take_nil. simpl. rewrite app_nil_r, Z.add_0_r. now destruct ch.
  - destruct (Nat.ltb_spec (length (buffer ch)) (capacity ch)) as [Hlt|Hge].
    + rewrite (try_send_free _ _ Hlt), IH. simpl.
      rewrite length_app. simpl.
      replace (capacity ch - length (buffer ch))%nat
        with (S (capacity ch - (length (buffer ch) + 1)))%nat by lia.
      simpl. rewrite <- app_assoc. simpl. f_equal. lia.
    + rewrite (try_send_full _ _ Hge), IH.
      replace (capacity ch - length (buffer ch))%nat with 0%nat by lia.
      reflexivity.
Qed.

(** C9. Each record is offered to the queue once, without waiting.
    [POST /logs] enqueues the record and answers 202 when the queue has
    room, and enqueues nothing and answers 503 when it is full.
    [POST /batch] with an array of [n] items always answers 202 with
    [total = n] and [accepted] the number of items enqueued; the items
    that found the queue full are left out. *)
Theorem http_nonblocking_offer (now : Z) (ch : chan) :
  (forall d : logData.t,
      ((length (buffer ch) < capacity ch)%nat ->
       fst (handleLogs now ch (post d))
         = {| buffer := buffer ch ++ [handleLogs_entry now d];
              capacity := capacity ch |} /\
       StatusCode (snd (handleLogs now ch (post d))) = 202) /\
      ((capacity ch <= length (buffer ch))%nat ->
       fst (handleLogs now ch (post d)) = ch /\
       StatusCode (snd (handleLogs now ch (post d))) = 503)) /\
  (forall logs : list logData.t,
      let admitted := take (capacity ch - length (buffer ch)) logs in
      fst (handleBatch now ch (post logs))
        = {| buffer := buffer ch ++ map (handleBatch_entry now) admitted;
             capacity := capacity ch |} /\
      StatusCode (snd (handleBatch now ch (post logs))) = 202 /\
      exists m,
        Written (snd (handleBatch now ch (post logs))) = JSON m /\
        m !! "total" = Some (VInt (Z.of_nat (length logs))) /\
        m !! "accepted" = Some (VInt (Z.of_nat (length admitted)))).
Proof.
  split.
  - intros d. unfold handleLogs, post. simpl. split; intros H.
    + now rewrite (try_send_free _ _ H).
    + now rewrite (try_send_full _ _ H).
  - intros logs admitted. unfold handleBatch, post. simpl.
    rewrite handleBatch_loop_spec. fold admitted. simpl.
    repeat split. eexists. split; [reflexivity |].
    split.
    + rewrite lookup_insert_ne by discriminate. apply lookup_insert_eq.
    + rewrite !lookup_insert_ne by discriminate. apply lookup_insert_eq.
Qed.

Lemma http_nonblocking_offer_witness :
  let d := {| logData.Level := "ERROR"; logData.Message := "Test error message";
              logData.Source := "test-app"; logData.Fields := None |} in
  ((length (buffer (make 1)) < capacity (make 1))%nat /\
   StatusCode (snd (handleLogs 0 (make 1) (post d))) = 202) /\
  ((capacity (make 0) <= length (buffer (make 0)))%nat /\
   StatusCode (snd (handleLogs 0 (make 0) (post d))) = 503).
Proof.
  intros d. split.
  - assert (H : (length (buffer (make 1)) < capacity (make 1))%nat)
      by (simpl; lia).
    exact (conj H (proj2 (proj1 (proj1 (http_nonblocking_offer 0 (make 1)) d)
                            H))).
  - assert (H : (capacity (make 0) <= length (buffer (make 0)))%nat)
      by (simpl; lia).
    exact (conj H (proj2 (proj2 (proj1 (http_nonblocking_offer 0 (make 0)) d)
                            H))).
Defined.

(** C4 as stated does not hold: the record the constructor returns has
    the empty string as its id, and two records made at different
    times have the same id. *)
Lemma record_id_counterexample :
  ~ (ID (NewLogEntry 0) <> "" /\ ID (NewLogEntry 0) <> ID (NewLogEntry 1)).
Proof. intros [H _]. now apply H. Qed.

(** C4, amended. No id is assigned at creation: the id of a record
    the constructor returns, and of every record a source builds, is the
    empty string.  A 202 answer to [POST /logs] comes with exactly one
    record enqueued and reports the id field of that record. *)
Theorem record_id_unassigned (now : Z) :
  ID (NewLogEntry now) = "" /\
  (forall d, ID (handleLogs_entry now d) = "") /\
  (forall d, ID (handleBatch_entry now d) = "") /\
  (forall ToLower sr raw,
      ID (syslog_receiver.parseSyslogMessage ToLower now sr raw) = "") /\
  (forall fr line, ID (file_reader.parseSimpleLine now fr line) = "") /\
  (forall (ch : chan) (r : Request logData.t),
      StatusCode (snd (handleLogs now ch r)) = 202 ->
      exists entry m,
        buffer (fst (handleLogs now ch r)) = (buffer ch ++ [entry])%list /\
        Written (snd (handleLogs now ch r)) = JSON m /\
        m !! "id" = Some (VString (ID entry))).
Proof.
  split; [reflexivity |]. split; [| split; [| split; [| split]]].
  - intros d. unfold handleLogs_entry.
    repeat match goal with
           | |- context [if ?c then _ else _] => destruct c
           end; destruct (logData.Fields d); reflexivity.
  - intros d. unfold handleBatch_entry.
    repeat match goal with
           | |- context [if ?c then _ else _] => destruct c
           end; destruct (logData.Fields d); reflexivity.
  - intros ToLower sr raw. unfold syslog_receiver.parseSyslogMessage.
    repeat match goal with
           | |- context [if ?c then _ else _] => destruct c
           end; reflexivity.
  - reflexivity.
  - intros ch r. unfold handleLogs.
    destruct (negb (String.eqb (Method r) "POST")); [discriminate |].
    destruct (Body r) as [| |d]; try discriminate.
    destruct (try_send (handleLogs_entry now d) ch) as [ch'|] eqn:E;
      [| discriminate].
    intros _. unfold try_send in E.
    destruct (length (buffer ch) <? capacity ch)%nat; [| discriminate].
    injection E as <-. simpl.
    exists (handleLogs_entry now d). eexists.
    split; [reflexivity |]. split; [reflexivity |].
    rewrite lookup_insert_ne by discriminate. apply lookup_insert_eq.
Qed.

Lemma record_id_unassigned_witness :
  let r := post {| logData.Level := "ERROR";
                   logData.Message := "Test error message";
                   logData.Source := "test-app"; logData.Fields := None |} in
  StatusCode (snd (handleLogs 0 (make 10) r)) = 202 /\
  exists entry m,
    buffer (fst (handleLogs 0 (make 10) r))
      = (buffer (make 10) ++ [entry])%list /\
    Written (snd (handleLogs 0 (make 10) r)) = JSON m /\
    m !! "id" = Some (VString (ID entry)).
Proof.
  intros r.
  assert (H : StatusCode (snd (handleLogs 0 (make 10) r)) = 202)
    by reflexivity.
  exact (conj H
           (proj2 (proj2 (proj2 (proj2 (proj2 (record_id_unassigned 0)))))
              (make 10) r H)).
Defined.

End http_facts.

(** * The file tailer *)
Section file_facts.
Import models file_reader.

(** ** The buffered reader *)

Lemma drop_length_append (p q : string) : drop (String.length p) (p +:+ q) = q.
Proof.
  induction p as [|c p IH]; [reflexivity |]. rewrite append_cons. exact IH.
Qed.

Lemma drop_past_end (n : nat) (s : string) :
  (String.length s <= n)%nat -> drop n s = "".
Proof.
  revert n; induction s as [|c s IH]; intros [|n] H; simpl in *;
    try reflexivity; try lia.
  apply IH. lia.
Qed.

Lemma length_drop (n : nat) (s : string) :
  String.length (drop n s) = (String.length s - n)%nat.
Proof.
  revert n; induction s as [|c s IH]; intros [|n]; simpl; try reflexivity.
  apply IH.
Qed.

Lemma cut_line_absent (s : string) : ~ occurs newline s -> cut_line s = None.
Proof.
  induction s as [|c s IH]; intros H; [reflexivity |].
  apply occurs_cons_inv in H as [Hne Hs]. simpl.
  destruct (Ascii.eqb_spec c "010") as [->|_]; [congruence |].
  now rewrite (IH Hs).
Qed.

Lemma cut_line_inv (s line rest : string) :
  cut_line s = Some (line, rest) ->
  s = line +:+ rest /\ (0 < String.length line)%nat.
Proof.
  revert line; induction s as [|c s IH]; intros line H; [discriminate |].
  simpl in H. destruct (Ascii.eqb c "010").
  - injection H as <- <-. split; [reflexivity | simpl; lia].
  - destruct (cut_line s) as [[l r]|]; [| discriminate].
    injection H as <- <-. destruct (IH l eq_refl) as [-> _].
    split; [reflexivity | simpl; lia].
Qed.

(** ** The inner loop *)

(** One turn of the inner [for], with the call of [ReadString] laid
    open. *)
Lemma read_lines_S (fuel : nat) (t : tick) (sent : nat) (s : loop_state) :
  read_lines (S fuel) t sent s =
    match cut_line (drop (reader s) (content t)) with
    | Some (line, _) =>
        let fr' :=
          set_offset
            (int64 (offset (fr s) + int64 (Z.of_nat (String.length line))))
            (fr s) in
        let reader' := (reader s + String.length line)%nat in
        if cancelled t sent
        then Return {| fr := fr'; reader := reader'; out := out s |}
        else read_lines fuel t (S sent)
               {| fr := fr'; reader := reader';
                  out := out s ++ [parseSimpleLine (now t) fr' line] |}
    | None =>
        let reader' :=
          (reader s
           + String.length (drop (reader s) (content t)))%nat in
        match tail t with
        | io_EOF => Break {| fr := fr s; reader := reader'; out := out s |}
        | io_other _ =>
            Return {| fr := fr s; reader := reader'; out := out s |}
        end
    end.
Proof.
  simpl. unfold ReadString.
  destruct (cut_line (drop (reader s) (content t))) as [[line rest]|];
    reflexivity.
Qed.

(** A line that was cut leaves strictly less to read. *)
Lemma cut_line_progress (content line rest : string) (reader : nat) :
  cut_line (drop reader content) = Some (line, rest) ->
  (0 < String.length line)%nat /\
  (reader + String.length line <= String.length content)%nat.
Proof.
  intros H. apply cut_line_inv in H as [E Hpos]. split; [exact Hpos |].
  pose proof (length_drop reader content) as Hl.
  rewrite E, length_append in Hl. lia.
Qed.

(** The fuel [loop] gives the inner loop is enough. *)
Lemma read_lines_fuel (fuel : nat) (t : tick) :
  forall (sent : nat) (s : loop_state),
    (String.length (content t) - reader s < fuel)%nat ->
    read_lines fuel t sent s <> Exhausted.
Proof.
  induction fuel as [|fuel IH]; intros sent s Hfuel; [lia |].
  rewrite read_lines_S.
  destruct (cut_line (drop (reader s) (content t))) as [[line rest]|] eqn:E.
  - apply cut_line_progress in E as [Hpos Hle]. cbv zeta.
    destruct (cancelled t sent); [discriminate |].
    apply IH. simpl. lia.
  - cbv zeta. destruct (tail t); discriminate.
Qed.

Lemma loop_tick (t : tick) (evs : list event) (s : loop_state) :
  loop (Ticker t :: evs) s =
    match read_lines (S (String.length (content t))) t 0 s with
    | Break s' => loop evs s'
    | Return s' => exit s'
    | Exhausted => Stuck
    end.
Proof. reflexivity. Qed.

Theorem loop_not_stuck (evs : list event) :
  forall s : loop_state, loop evs s <> Stuck.
Proof.
  induction evs as [|[|t] evs IH]; intros s; try discriminate.
  rewrite loop_tick.
  destruct (read_lines (S (String.length (content t))) t 0 s) eqn:E.
  - apply IH.
  - discriminate.
  - exfalso. revert E. apply read_lines_fuel. lia.
Qed.

Lemma Stop_not_running (r : FileReader) : running (fst (Stop r)) = false.
Proof.
  unfold Stop. destruct (running r) eqn:E; simpl; [| exact E].
  destruct (file r) as [f|]; [destruct (closed f) |]; reflexivity.
Qed.

Lemma Stop_offset (r : FileReader) : offset (fst (Stop r)) = offset r.
Proof.
  unfold Stop. destruct (running r); simpl; [| reflexivity].
  destruct (file r) as [f|]; [destruct (closed f) |]; reflexivity.
Qed.

(** With reads that fail, the inner loop can only [return]. *)
Lemma read_lines_fault (msg : string) (fuel : nat) (t : tick) :
  tail t = io_other msg ->
  forall (sent : nat) (s : loop_state),
    (String.length (content t) - reader s < fuel)%nat ->
    exists s', read_lines fuel t sent s = Return s'.
Proof.
  intros Htail. induction fuel as [|fuel IH]; intros sent s Hfuel; [lia |].
  rewrite read_lines_S.
  destruct (cut_line (drop (reader s) (content t))) as [[line rest]|] eqn:E.
  - apply cut_line_progress in E as [Hpos Hle]. cbv zeta.
    destruct (cancelled t sent); [eauto |].
    apply IH. simpl. lia.
  - cbv zeta. rewrite Htail. eauto.
Qed.

(** C3, as the code has it.  A read error other than end-of-file makes
    [readLoop] return: the deferred [Stop] clears [running], and the
    events that follow, ticks with complete lines among them, are never
    looked at. *)
Theorem read_error_ends_loop (c msg : string) (n : Z) (ca : option nat)
    (evs : list event) (s : loop_state) :
  let t := Ticker {| content := c; tail := io_other msg; now := n;
                     cancel_after := ca |} in
  (exists s', loop (t :: evs) s = Exited s' /\ running (fr s') = false) /\
  loop (t :: evs) s = loop [t] s /\
  (exists s',
      readLoop [Ticker {| content := ""; tail := io_other "input/output error";
                          now := 0; cancel_after := None |};
                poll ("late line" +:+ newline) 1]
        (fst (Start sound_fs (NewFileReader "app.log"))) = Exited s' /\
      out s' = [] /\ running (fr s') = false).
Proof.
  intros t. subst t. rewrite !loop_tick.
  destruct (read_lines_fault msg (S (String.length c))
              {| content := c; tail := io_other msg; now := n;
                 cancel_after := ca |} eq_refl 0%nat s) as [s' Hs'];
    [simpl; lia |].
  simpl content. rewrite Hs'. repeat split.
  - eexists. split; [reflexivity |]. apply Stop_not_running.
  - eexists. repeat split.
Qed.

(** C2, as the code has it.  A poll that finds a partial line emits
    nothing, yet the partial bytes are consumed: the reader stands past
    them while the offset has not moved.  Once the newline is appended,
    the one record emitted holds the newline alone, not the line. *)
Theorem partial_line_is_lost (path partial : string) (n1 n2 : Z) :
  partial <> "" ->
  ~ occurs newline partial ->
  let fr0 := fst (Start sound_fs (NewFileReader path)) in
  (exists s1,
      readLoop [poll partial n1] fr0 = Waiting s1 /\
      out s1 = [] /\
      reader s1 = String.length partial /\
      GetOffset (fr s1) = 0) /\
  (exists s2 e,
      readLoop [poll partial n1; poll (partial +:+ newline) n2] fr0
        = Waiting s2 /\
      out s2 = [e] /\
      Message e = newline /\
      Message e <> partial +:+ newline).
Proof.
  intros Hne Hnl fr0.
  assert (Hfirst :
    read_lines (S (String.length partial))
      {| content := partial; tail := io_EOF; now := n1;
         cancel_after := None |} 0
      {| fr := fr0; reader := 0; out := [] |}
    = Break {| fr := fr0; reader := String.length partial; out := [] |}).
  { rewrite read_lines_S. simpl reader. simpl content. simpl drop.
    rewrite (cut_line_absent _ Hnl). reflexivity. }
  assert (Hrun : forall evs,
    readLoop evs fr0 = loop evs {| fr := fr0; reader := 0; out := [] |})
    by reflexivity.
  rewrite !Hrun. unfold poll. rewrite !loop_tick. simpl content.
  rewrite Hfirst. split.
  - eexists. simpl. repeat split.
  - rewrite loop_tick. simpl content.
    rewrite read_lines_S. simpl reader. simpl content.
    rewrite drop_length_append. simpl cut_line. cbv zeta.
    unfold cancelled. simpl cancel_after.
    rewrite length_append. simpl (String.length newline).
    rewrite Nat.add_1_r, read_lines_S. simpl reader. simpl content.
    rewrite drop_past_end
      by (rewrite length_append; simpl; lia).
    simpl. eexists. eexists. repeat split.
    simpl. intros E. apply Hne.
    destruct partial as [|a p]; [reflexivity |].
    rewrite append_cons in E. injection E as _ E.
    destruct p; discriminate.
Qed.

Lemma partial_line_is_lost_witness :
  "abc" <> "" /\ ~ occurs newline "abc" /\
  exists s2 e,
    readLoop [poll "abc" 1; poll ("abc" +:+ newline) 2]
      (fst (Start sound_fs (NewFileReader "app.log"))) = Waiting s2 /\
    out s2 = [e] /\
    Message e = newline /\
    Message e <> "abc" +:+ newline.
Proof.
  assert (H1 : "abc" <> "") by discriminate.
  assert (H2 : ~ occurs newline "abc").
  { intros (pre & post & E).
    destruct pre as [|a [|b [|c [|d pre]]]]; discriminate. }
  exact (conj H1 (conj H2
           (proj2 (partial_line_is_lost "app.log" "abc" 1 2 H1 H2)))).
Defined.

(** ** The offset *)

Lemma int64_add_l (a b : Z) : int64 (int64 a + b) = int64 (a + b).
Proof.
  unfold int64. f_equal.
  replace ((a + 2 ^ 63) mod 2 ^ 64 - 2 ^ 63 + b + 2 ^ 63)
    with ((a + 2 ^ 63) mod 2 ^ 64 + b) by lia.
  rewrite Zplus_mod_idemp_l. f_equal. lia.
Qed.

Lemma int64_add_r (a b : Z) : int64 (a + int64 b) = int64 (a + b).
Proof. rewrite Z.add_comm, int64_add_l. f_equal. lia. Qed.

Lemma total_length_app (a b : list LogEntry) :
  total_length (a ++ b) = total_length a + total_length b.
Proof.
  induction a as [|e a IH]; simpl; [reflexivity |].
  unfold total_length in *. simpl. rewrite IH. lia.
Qed.

(** Over a tick whose sends all complete, the offset moves by the
    bytes of the records emitted. *)
Lemma read_lines_offset (fuel : nat) (t : tick) :
  cancel_after t = None ->
  forall (sent : nat) (s s' : loop_state),
    read_lines fuel t sent s = Break s' \/
    read_lines fuel t sent s = Return s' ->
    exists new,
      out s' = out s ++ new /\
      int64 (offset (fr s')) = int64 (offset (fr s) + total_length new).
Proof.
  intros Hlive. induction fuel as [|fuel IH]; intros sent s s' H.
  - destruct H; discriminate.
  - rewrite read_lines_S in H.
    destruct (cut_line (drop (reader s) (content t))) as [[line rest]|].
    + cbv zeta in H. unfold cancelled in H. rewrite Hlive in H.
      apply IH in H as (new & Hout & Hoff).
      cbn [fr out offset set_offset] in Hout, Hoff.
      exists (parseSimpleLine (now t)
                (set_offset
                   (int64 (offset (fr s)
                           + int64 (Z.of_nat (String.length line))))
                   (fr s)) line :: new).
      split.
      * rewrite Hout, <- app_assoc. reflexivity.
      * rewrite Hoff, int64_add_l.
        rewrite <- Z.add_assoc, (Z.add_comm (int64 _)), Z.add_assoc.
        rewrite int64_add_r. f_equal.
        unfold total_length. simpl. lia.
    + exists []. cbv zeta in H.
      destruct (tail t), H as [H|H]; try discriminate;
        injection H as <-; simpl; rewrite app_nil_r, Z.add_0_r; now split.
Qed.

(** Over a run none of whose sends is cut short by cancellation,
    [GetOffset] moves by the total byte length of the records emitted,
    in [int64] arithmetic. *)
Theorem offset_counts_emitted_bytes (evs : list event) :
  sends_complete evs ->
  forall s s' : loop_state,
    loop evs s = Waiting s' \/ loop evs s = Exited s' ->
    exists new,
      out s' = out s ++ new /\
      int64 (GetOffset (fr s'))
        = int64 (GetOffset (fr s) + total_length new).
Proof.
  unfold GetOffset.
  induction 1 as [|ev evs Hev Hevs IH]; intros s s' H.
  - exists []. destruct H as [H|H]; [| discriminate].
    injection H as <-. rewrite app_nil_r, Z.add_0_r. now split.
  - destruct ev as [|t].
    + exists []. destruct H as [H|H]; [discriminate |].
      injection H as <-. simpl.
      rewrite app_nil_r, Z.add_0_r, Stop_offset. now split.
    + rewrite loop_tick in H.
      destruct (read_lines (S (String.length (content t))) t 0 s)
        as [s0|s0|] eqn:E.
      * destruct (read_lines_offset _ t Hev 0%nat s s0 (or_introl E))
          as (new0 & Hout0 & Hoff0).
        destruct (IH s0 s' H) as (new & Hout & Hoff).
        exists (new0 ++ new). split.
        -- rewrite Hout, Hout0, app_assoc. reflexivity.
        -- rewrite Hoff, <- int64_add_l, Hoff0, int64_add_l.
           rewrite total_length_app. f_equal. lia.
      * destruct (read_lines_offset _ t Hev 0%nat s s0 (or_intror E))
          as (new0 & Hout0 & Hoff0).
        destruct H as [H|H]; [discriminate |].
        injection H as <-. exists new0. simpl.
        rewrite Stop_offset. now split.
      * destruct H; discriminate.
Qed.

Lemma offset_counts_emitted_bytes_witness :
  sends_complete [poll ("line 1" +:+ newline +:+ "line 2" +:+ newline) 1] /\
  exists s',
    readLoop [poll ("line 1" +:+ newline +:+ "line 2" +:+ newline) 1]
      (fst (Start sound_fs (NewFileReader "app.log"))) = Waiting s' /\
    exists new,
      out s' = [] ++ new /\
      int64 (GetOffset (fr s')) = int64 (0 + total_length new).
Proof.
  assert (H : sends_complete
                [poll ("line 1" +:+ newline +:+ "line 2" +:+ newline) 1]).
  { repeat constructor. }
  split; [exact H |]. eexists. split; [reflexivity |].
  refine (offset_counts_emitted_bytes _ H
            {| fr := fst (Start sound_fs (NewFileReader "app.log"));
               reader := 0; out := [] |} _ (or_introl eq_refl)).
Defined.

(** C8, as the code has it.  The file holds ["a"] at the first poll and
    ["a\n"] at the second.  The run emits one record, the newline at
    byte 1, and leaves [GetOffset] at 1, the initial offset plus the
    bytes emitted.  Stopped and started again, the source seeks to
    byte 1 and emits that same newline a second time. *)
Theorem restart_reemits_after_partial_read :
  let fr0 := fst (Start sound_fs (NewFileReader "app.log")) in
  exists s1 s2,
    readLoop [poll "a" 1; poll ("a" +:+ newline) 2; Done] fr0 = Exited s1 /\
    map Message (out s1) = [newline] /\
    GetOffset (fr s1) = 0 + total_length (out s1) /\
    GetOffset (fr s1) = 1 /\
    snd (Start sound_fs (fr s1)) = None /\
    readLoop [poll ("a" +:+ newline) 3] (fst (Start sound_fs (fr s1)))
      = Waiting s2 /\
    map Message (out s2) = [newline].
Proof.
  intros fr0. eexists. eexists.
  split; [reflexivity |]. repeat split.
Qed.

End file_facts.

(** * The lifecycle flag *)
Section lifecycle_facts.

(** C1, as the code has it.  [Start] sets [running] before the setup
    that may fail, and its error returns leave the flag set: after a
    file that does not open, a protocol that is not supported or an
    address that does not bind, the source counts as running, and the
    next [Start] on it is turned down as already running.  The HTTP
    receiver binds inside its goroutine, so its [Start] reports no
    setup error at all. *)
Theorem failed_start_leaves_running :
  (forall sys fr err,
      file_reader.running fr = false ->
      file_reader.Open sys (file_reader.filepath fr) = Some err ->
      snd (file_reader.Start sys fr) = Some ("failed to open file: " +:+ err)
      /\ file_reader.running (fst (file_reader.Start sys fr)) = true
      /\ forall sys',
          snd (file_reader.Start sys' (fst (file_reader.Start sys fr)))
            = Some "file reader already running") /\
  (forall net sr,
      syslog_receiver.running sr = false ->
      syslog_receiver.protocol sr <> "udp" ->
      syslog_receiver.protocol sr <> "tcp" ->
      snd (syslog_receiver.Start net sr)
        = Some ("unsupported protocol: " +:+ syslog_receiver.protocol sr)
      /\ syslog_receiver.running (fst (syslog_receiver.Start net sr)) = true
      /\ forall net',
          snd (syslog_receiver.Start net'
                 (fst (syslog_receiver.Start net sr)))
            = Some "syslog receiver already running") /\
  (forall net sr err,
      syslog_receiver.running sr = false ->
      syslog_receiver.protocol sr = "udp" ->
      syslog_receiver.ResolveUDPAddr net (syslog_receiver.addr sr) = None ->
      syslog_receiver.ListenUDP net (syslog_receiver.addr sr) = Some err ->
      snd (syslog_receiver.Start net sr)
        = Some ("failed to listen on UDP: " +:+ err)
      /\ syslog_receiver.running (fst (syslog_receiver.Start net sr)) = true
      /\ forall net',
          snd (syslog_receiver.Start net'
                 (fst (syslog_receiver.Start net sr)))
            = Some "syslog receiver already running") /\
  (forall net sr err,
      syslog_receiver.running sr = false ->
      syslog_receiver.protocol sr = "tcp" ->
      syslog_receiver.ListenTCP net (syslog_receiver.addr sr) = Some err ->
      snd (syslog_receiver.Start net sr)
        = Some ("failed to listen on TCP: " +:+ err)
      /\ syslog_receiver.running (fst (syslog_receiver.Start net sr)) = true
      /\ forall net',
          snd (syslog_receiver.Start net'
                 (fst (syslog_receiver.Start net sr)))
            = Some "syslog receiver already running") /\
  (forall out hr,
      http_receiver.running hr = false ->
      snd (http_receiver.Start out hr) = None).
Proof.
  split; [| split; [| split; [| split]]].
  - intros sys fr err Hrun Hopen. unfold file_reader.Start.
    rewrite Hrun. simpl. rewrite Hopen. simpl. auto.
  - intros net sr Hrun Hudp Htcp. unfold syslog_receiver.Start.
    rewrite Hrun. simpl.
    apply String.eqb_neq in Hudp, Htcp. rewrite Hudp, Htcp. simpl. auto.
  - intros net sr err Hrun Hudp Hres Hbind. unfold syslog_receiver.Start.
    rewrite Hrun. simpl. rewrite Hudp. simpl.
    unfold syslog_receiver.startUDP. simpl. rewrite Hres, Hbind. simpl. auto.
  - intros net sr err Hrun Htcp Hbind. unfold syslog_receiver.Start.
    rewrite Hrun. simpl. rewrite Htcp. simpl.
    unfold syslog_receiver.startTCP. simpl. rewrite Hbind. simpl. auto.
  - intros out hr Hrun. unfold http_receiver.Start. now rewrite Hrun.
Qed.

Lemma failed_start_leaves_running_witness :
  let sys := {| file_reader.Open := fun _ => Some "no such file or directory";
                file_reader.Seek := fun _ _ => None |} in
  let fr := file_reader.NewFileReader "/var/log/missing.log" in
  file_reader.running fr = false /\
  file_reader.Open sys (file_reader.filepath fr)
    = Some "no such file or directory" /\
  file_reader.running (fst (file_reader.Start sys fr)) = true /\
  snd (file_reader.Start sound_fs (fst (file_reader.Start sys fr)))
    = Some "file reader already running".
Proof.
  intros sys fr.
  destruct (proj1 failed_start_leaves_running sys fr
              "no such file or directory" eq_refl eq_refl)
    as (_ & Hrun & Hagain).
  exact (conj eq_refl (conj eq_refl (conj Hrun (Hagain sound_fs)))).
Defined.

End lifecycle_facts.

(** * More on the file tailer *)
Section file_more.
Import models file_reader.

Lemma loop_app (evs1 evs2 : list event) :
  forall s : loop_state,
    loop (evs1 ++ evs2) s =
      match loop evs1 s with
      | Waiting s' => loop evs2 s'
      | r => r
      end.
Proof.
  induction evs1 as [|[|t] evs1 IH]; intros s; try reflexivity.
  rewrite <- app_comm_cons, !loop_tick.
  destruct (read_lines (S (String.length (content t))) t 0 s);
    [apply IH | reflexivity | reflexivity].
Qed.

Lemma cut_line_single (s line rest : string) :
  cut_line s = Some (line, rest) -> single_line line.
Proof.
  revert line; induction s as [|c s IH]; intros line H; [discriminate |].
  simpl in H. destruct (Ascii.eqb_spec c "010") as [->|Hc].
  - injection H as <- _. exists "". split; [reflexivity |].
    intros (pre & post & E). destruct pre; discriminate.
  - destruct (cut_line s) as [[l r]|]; [| discriminate].
    injection H as <- <-. destruct (IH l eq_refl) as (body & -> & Hbody).
    exists (String c body). split; [reflexivity |].
    intros (pre & post & E). destruct pre as [|x pre].
    + rewrite append_nil_l in E. unfold newline in E.
      rewrite append_cons in E. congruence.
    + rewrite append_cons in E. injection E as _ E.
      apply Hbody. now exists pre, post.
Qed.

Lemma Stop_filepath (r : FileReader) : filepath (fst (Stop r)) = filepath r.
Proof.
  unfold Stop. destruct (running r); simpl; [| reflexivity].
  destruct (file r) as [f|]; [destruct (closed f) |]; reflexivity.
Qed.

(** The inner loop changes nothing of the receiver but its offset, and
    what it emits are single lines read from the receiver's file. *)
Lemma read_lines_records (fuel : nat) (t : tick) :
  forall (sent : nat) (s s' : loop_state),
    read_lines fuel t sent s = Break s' \/
    read_lines fuel t sent s = Return s' ->
    filepath (fr s') = filepath (fr s) /\
    file (fr s') = file (fr s) /\
    running (fr s') = running (fr s) /\
    exists new,
      out s' = out s ++ new /\
      Forall (fun e => single_line (Message e) /\
                       Source e = filepath (fr s) /\
                       Level e = LevelInfo /\
                       Fields e = ∅ /\
                       Timestamp e = now t) new.
Proof.
  induction fuel as [|fuel IH]; intros sent s s' H.
  - destruct H; discriminate.
  - rewrite read_lines_S in H.
    destruct (cut_line (drop (reader s) (content t))) as [[line rest]|] eqn:E.
    + apply cut_line_single in E. cbv zeta in H.
      destruct (cancelled t sent).
      * destruct H as [H|H]; [discriminate |]. injection H as <-.
        repeat split. exists []. now rewrite app_nil_r.
      * apply IH in H as (Hp & Hf & Hr & new & Hout & Hnew).
        cbn [fr out filepath file running set_offset] in *.
        repeat split; try assumption.
        eexists (_ :: new). split.
        -- rewrite Hout, <- app_assoc. reflexivity.
        -- constructor; [| exact Hnew]. repeat split. exact E.
    + cbv zeta in H. destruct (tail t), H as [H|H]; try discriminate;
        injection H as <-; repeat split; exists []; now rewrite app_nil_r.
Qed.

(** Every record the loop emits is one complete line, newline included,
    carries the path of the file as its source, level INFO and no
    fields; earlier records are left as they were. *)
Theorem emitted_records_are_single_lines (evs : list event) :
  forall s s' : loop_state,
    loop evs s = Waiting s' \/ loop evs s = Exited s' ->
    exists new,
      out s' = out s ++ new /\
      Forall (fun e => single_line (Message e) /\
                       Source e = filepath (fr s) /\
                       Level e = LevelInfo /\
                       Fields e = ∅) new.
Proof.
  induction evs as [|[|t] evs IH]; intros s s' H.
  - destruct H as [H|H]; [| discriminate]. injection H as <-.
    exists []. now rewrite app_nil_r.
  - destruct H as [H|H]; [discriminate |]. injection H as <-.
    exists []. simpl. now rewrite app_nil_r.
  - rewrite loop_tick in H.
    destruct (read_lines (S (String.length (content t))) t 0 s)
      as [s0|s0|] eqn:E.
    + destruct (read_lines_records _ t 0%nat s s0 (or_introl E))
        as (Hp & _ & _ & new0 & Hout0 & Hnew0).
      destruct (IH s0 s' H) as (new & Hout & Hnew).
      exists (new0 ++ new). split.
      * rewrite Hout, Hout0, app_assoc. reflexivity.
      * apply Forall_app. split.
        -- eapply Forall_impl; [exact Hnew0 |]. simpl. tauto.
        -- rewrite Hp in Hnew. exact Hnew.
    + destruct (read_lines_records _ t 0%nat s s0 (or_intror E))
        as (_ & _ & _ & new0 & Hout0 & Hnew0).
      destruct H as [H|H]; [discriminate |]. injection H as <-.
      exists new0. split; [exact Hout0 |].
      eapply Forall_impl; [exact Hnew0 |]. simpl. tauto.
    + destruct H; discriminate.
Qed.

Lemma emitted_records_are_single_lines_witness :
  exists s',
    readLoop [poll ("one" +:+ newline +:+ "two" +:+ newline +:+ "thr") 7]
      (fst (Start sound_fs (NewFileReader "app.log"))) = Waiting s' /\
    exists new,
      out s' = [] ++ new /\
      Forall (fun e => single_line (Message e) /\
                       Source e = "app.log" /\
                       Level e = LevelInfo /\
                       Fields e = ∅) new.
Proof.
  eexists. split; [reflexivity |].
  exact (emitted_records_are_single_lines
           [poll ("one" +:+ newline +:+ "two" +:+ newline +:+ "thr") 7]
           {| fr := fst (Start sound_fs (NewFileReader "app.log"));
              reader := 0; out := [] |} _ (or_introl eq_refl)).
Defined.

(** While the loop waits, the lifecycle flag and the file handle are as
    [Start] left them; once it has returned, by cancellation or by a read
    error, the flag is clear and an open handle has been closed.  The
    path never changes. *)
Theorem loop_stops_only_by_returning (evs : list event) :
  forall s s' : loop_state,
    (loop evs s = Waiting s' ->
     running (fr s') = running (fr s) /\ file (fr s') = file (fr s) /\
     filepath (fr s') = filepath (fr s)) /\
    (loop evs s = Exited s' ->
     running (fr s') = false /\
     (running (fr s) = true ->
      forall f, file (fr s) = Some f ->
                file (fr s') = Some {| name := name f; pos := pos f;
                                       closed := true |}) /\
     filepath (fr s') = filepath (fr s)).
Proof.
  assert (Hexit : forall s0 s',
    exit s0 = Exited s' ->
    running (fr s') = false /\
    (running (fr s0) = true ->
     forall f, file (fr s0) = Some f ->
               file (fr s') = Some {| name := name f; pos := pos f;
                                      closed := true |}) /\
    filepath (fr s') = filepath (fr s0)).
  { intros s0 s' H. injection H as <-. simpl.
    split; [apply Stop_not_running |]. split; [| apply Stop_filepath].
    intros Hrun f Hf. unfold Stop. rewrite Hrun. simpl. rewrite Hf.
    destruct (closed f) eqn:Hc; simpl; [| reflexivity].
    rewrite Hf. destruct f; simpl in *; now subst. }
  induction evs as [|[|t] evs IH]; intros s s'.
  - split; intros H; [| discriminate]. injection H as <-. auto.
  - split; intros H; [discriminate |]. now apply Hexit.
  - rewrite loop_tick.
    destruct (read_lines (S (String.length (content t))) t 0 s)
      as [s0|s0|] eqn:E.
    + destruct (read_lines_records _ t 0%nat s s0 (or_introl E))
        as (Hp & Hf & Hr & _).
      destruct (IH s0 s') as [IHw IHe]. rewrite Hp, Hf, Hr in *.
      split; assumption.
    + destruct (read_lines_records _ t 0%nat s s0 (or_intror E))
        as (Hp & Hf & Hr & _).
      split; intros H; [discriminate |].
      apply Hexit in H. rewrite Hp, Hf, Hr in H. exact H.
    + split; discriminate.
Qed.

(** ** Files that grow by whole lines *)

Lemma int64_small (z : Z) : - 2 ^ 63 <= z < 2 ^ 63 -> int64 z = z.
Proof. intros H. unfold int64. rewrite Z.mod_small; lia. Qed.

Lemma ends_with_newline_tail (l r : string) :
  ends_with_newline (l +:+ r) -> r <> "" -> ends_with_newline r.
Proof.
  induction l as [|c l IH]; intros [body E] Hr; [now exists body |].
  apply IH; [| exact Hr]. destruct body as [|b body].
  - rewrite append_cons, append_nil_l in E. unfold newline in E.
    injection E as _ E. destruct l; [| discriminate].
    rewrite append_nil_l in E. congruence.
  - rewrite !append_cons in E. injection E as _ E. now exists body.
Qed.

Lemma whole_lines_rest (s line rest : string) :
  cut_line s = Some (line, rest) -> whole_lines s -> whole_lines rest.
Proof.
  intros Hcut [->|Hs]; [discriminate |].
  apply cut_line_inv in Hcut as [-> _].
  destruct rest as [|c rest]; [now left | right].
  now apply (ends_with_newline_tail line).
Qed.

Lemma cut_line_terminated (body : string) : cut_line (body +:+ newline) <> None.
Proof.
  induction body as [|c body IH]; [discriminate |].
  rewrite append_cons. simpl. destruct (Ascii.eqb c "010"); [discriminate |].
  destruct (cut_line (body +:+ newline)) as [[l r]|]; [discriminate | exact IH].
Qed.

Lemma whole_lines_no_cut (s : string) :
  cut_line s = None -> whole_lines s -> s = "".
Proof.
  intros Hcut [->|[body ->]]; [reflexivity |].
  now apply cut_line_terminated in Hcut.
Qed.

Lemma concat_messages_app (a b : list LogEntry) :
  concat_messages (a ++ b) = concat_messages a +:+ concat_messages b.
Proof.
  induction a as [|e a IH]; [reflexivity |].
  unfold concat_messages in *. simpl. now rewrite IH, append_assoc.
Qed.

Lemma drop_drop (n m : nat) (s : string) :
  drop m (drop n s) = drop (n + m) s.
Proof.
  revert s; induction n as [|n IH]; intros s; [reflexivity |].
  destruct s as [|c s]; simpl; [now destruct m | apply IH].
Qed.

(** One tick over unread data made of whole lines: all of it is emitted,
    in order, and the offset stays equal to the reader's position. *)
Lemma read_lines_whole (fuel : nat) (t : tick) :
  tail t = io_EOF ->
  cancel_after t = None ->
  Z.of_nat (String.length (content t)) < 2 ^ 63 ->
  forall (sent : nat) (s : loop_state),
    (String.length (content t) - reader s < fuel)%nat ->
    offset (fr s) = Z.of_nat (reader s) ->
    whole_lines (drop (reader s) (content t)) ->
    exists s' new,
      read_lines fuel t sent s = Break s' /\
      out s' = out s ++ new /\
      concat_messages new = drop (reader s) (content t) /\
      reader s'
        = (reader s + String.length (drop (reader s) (content t)))%nat /\
      offset (fr s') = Z.of_nat (reader s') /\
      filepath (fr s') = filepath (fr s) /\
      file (fr s') = file (fr s) /\
      running (fr s') = running (fr s).
Proof.
  intros Htail Hlive Hsize.
  induction fuel as [|fuel IH]; intros sent s Hfuel Hstep Hwhole; [lia |].
  rewrite read_lines_S.
  destruct (cut_line (drop (reader s) (content t))) as [[line rest]|] eqn:E.
  - pose proof (whole_lines_rest _ _ _ E Hwhole) as Hrest.
    pose proof (cut_line_progress _ _ _ _ E) as [Hpos Hle].
    apply cut_line_inv in E as [E _].
    assert (Hdrop : drop (reader s + String.length line) (content t) = rest).
    { rewrite <- drop_drop, E. apply drop_length_append. }
    cbv zeta. unfold cancelled. rewrite Hlive.
    edestruct (IH (S sent))
      as (s' & new & Hrun & Hout & Hcat & Hrd & Hoff & Hrest');
      [| | | rewrite Hrun].
    + simpl. lia.
    + simpl. rewrite Hstep, (int64_small (Z.of_nat _)), int64_small; lia.
    + simpl. now rewrite Hdrop.
    + cbn [fr out reader] in *. rewrite Hdrop in Hcat, Hrd.
      eexists s', (_ :: new). split; [reflexivity |].
      split; [rewrite Hout, <- app_assoc; reflexivity |].
      split; [unfold concat_messages in *; simpl; now rewrite Hcat, E |].
      split; [rewrite Hrd, E, length_append; lia |].
      split; [exact Hoff | exact Hrest'].
  - apply (whole_lines_no_cut _ E) in Hwhole. cbv zeta. rewrite Htail, Hwhole.
    eexists _, []. simpl. rewrite app_nil_r, Nat.add_0_r. repeat split.
    exact Hstep.
Qed.

Lemma append_nil_r (s : string) : s +:+ "" = s.
Proof.
  induction s as [|c s IH]; [reflexivity |]. now rewrite append_cons, IH.
Qed.

Lemma concat_chunks_cons (d : string * Z) (ds : list (string * Z)) :
  concat_chunks (d :: ds) = fst d +:+ concat_chunks ds.
Proof. reflexivity. Qed.

Lemma appends_whole (c : string) (ds : list (string * Z)) :
  forall s : loop_state,
    reader s = String.length c ->
    GetOffset (fr s) = Z.of_nat (String.length c) ->
    Forall (fun d => whole_lines (fst d)) ds ->
    Z.of_nat (String.length (c +:+ concat_chunks ds)) < 2 ^ 63 ->
    exists s' new,
      loop (appends c ds) s = Waiting s' /\
      out s' = out s ++ new /\
      concat_messages new = concat_chunks ds /\
      reader s' = String.length (c +:+ concat_chunks ds) /\
      GetOffset (fr s') = Z.of_nat (String.length (c +:+ concat_chunks ds)) /\
      filepath (fr s') = filepath (fr s) /\
      file (fr s') = file (fr s) /\
      running (fr s') = running (fr s).
Proof.
  unfold GetOffset. revert c.
  induction ds as [|d ds IH]; intros c s Hrd Hoff Hwhole Hsize.
  - exists s, []. unfold concat_chunks. simpl.
    rewrite app_nil_r, append_nil_r. repeat split; assumption.
  - apply Forall_cons in Hwhole as [Hd Hds].
    rewrite concat_chunks_cons in *. rewrite <- append_assoc in Hsize.
    simpl appends. unfold poll at 1. rewrite loop_tick.
    set (t := {| content := c +:+ fst d; tail := io_EOF; now := snd d;
                 cancel_after := None |}).
    assert (Hunread : drop (reader s) (content t) = fst d).
    { simpl. rewrite Hrd. apply drop_length_append. }
    destruct (read_lines_whole (S (String.length (content t))) t
                eq_refl eq_refl) with (sent := 0%nat) (s := s)
      as (s0 & new0 & Hrun & Hout0 & Hcat0 & Hrd0 & Hoff0 & Hp0 & Hf0 & Hr0).
    + unfold t. simpl content. rewrite !length_append in *. lia.
    + lia.
    + rewrite Hoff, Hrd. reflexivity.
    + now rewrite Hunread.
    + rewrite Hrun. rewrite Hunread in Hcat0, Hrd0.
      assert (Hrd0' : reader s0 = String.length (c +:+ fst d))
        by (rewrite Hrd0, Hrd, length_append; reflexivity).
      destruct (IH (c +:+ fst d) s0) as
        (s' & new & Hloop & Hout & Hcat & Hrd' & Hoff' & Hp & Hf & Hr);
        try assumption.
      * now rewrite Hoff0, Hrd0'.
      * exists s', (new0 ++ new). rewrite <- append_assoc.
        split; [exact Hloop |].
        split; [rewrite Hout, Hout0, app_assoc; reflexivity |].
        split; [rewrite concat_messages_app, Hcat0, Hcat; reflexivity |].
        rewrite Hp, Hf, Hr, Hp0, Hf0, Hr0. repeat split; assumption.
Qed.

(** A file that grows by whole lines is emitted whole.  Let the reader
    stand at the end of [c], with the offset equal to its position, and
    let chunks made of whole lines be appended, one before each poll.
    Then the loop is still waiting, the messages emitted, put end to end,
    are exactly the bytes appended, and [GetOffset] is the length of the
    file. *)
Theorem whole_lines_are_emitted_whole (c : string) (ds : list (string * Z))
    (s : loop_state) :
  reader s = String.length c ->
  GetOffset (fr s) = Z.of_nat (String.length c) ->
  Forall (fun d => whole_lines (fst d)) ds ->
  Z.of_nat (String.length (c +:+ concat_chunks ds)) < 2 ^ 63 ->
  exists s' new,
    loop (appends c ds) s = Waiting s' /\
    out s' = out s ++ new /\
    concat_messages new = concat_chunks ds /\
    reader s' = String.length (c +:+ concat_chunks ds) /\
    GetOffset (fr s') = Z.of_nat (String.length (c +:+ concat_chunks ds)).
Proof.
  intros Hrd Hoff Hwhole Hsize.
  destruct (appends_whole c ds s Hrd Hoff Hwhole Hsize)
    as (s' & new & H1 & H2 & H3 & H4 & H5 & _).
  now exists s', new.
Qed.

Lemma whole_lines_are_emitted_whole_witness :
  let c := "boot" +:+ newline in
  let ds := [("line 1" +:+ newline +:+ "line 2" +:+ newline, 5); ("", 6);
             ("line 3" +:+ newline, 7)] in
  let s :=
    {| fr := set_offset 5 (fst (Start sound_fs (NewFileReader "app.log")));
       reader := 5; out := [] |} in
  exists s' new,
    loop (appends c ds) s = Waiting s' /\
    out s' = out s ++ new /\
    concat_messages new = concat_chunks ds /\
    reader s' = String.length (c +:+ concat_chunks ds).
Proof.
  intros c ds s.
  destruct (whole_lines_are_emitted_whole c ds s)
    as (s' & new & H1 & H2 & H3 & H4 & _).
  - reflexivity.
  - reflexivity.
  - apply List.Forall_cons;
      [right; now exists ("line 1" +:+ newline +:+ "line 2") |].
    apply List.Forall_cons; [now left |].
    apply List.Forall_cons; [right; now exists "line 3" |].
    apply List.Forall_nil.
  - vm_compute. reflexivity.
  - now exists s', new.
Defined.

(** After a run over whole lines a restart resumes exactly where the run
    stopped.  A fresh reader tails a file that grows by the chunks [ds],
    all of whole lines, and is cancelled; it has then emitted the whole
    file.  Started again, it emits of the file, grown meanwhile by the
    whole lines [d], those lines and nothing else. *)
Theorem restart_resumes_after_whole_lines
    (path : string) (ds : list (string * Z)) (d : string) (n : Z) :
  Forall (fun d => whole_lines (fst d)) ds ->
  whole_lines d ->
  Z.of_nat (String.length (concat_chunks ds +:+ d)) < 2 ^ 63 ->
  let fr0 := fst (Start sound_fs (NewFileReader path)) in
  exists s1,
    readLoop (appends "" ds ++ [Done]) fr0 = Exited s1 /\
    concat_messages (out s1) = concat_chunks ds /\
    snd (Start sound_fs (fr s1)) = None /\
    exists s2,
      readLoop [poll (concat_chunks ds +:+ d) n]
        (fst (Start sound_fs (fr s1))) = Waiting s2 /\
      concat_messages (out s2) = d.
Proof.
  intros Hds Hd Hsize fr0.
  set (s0 := {| fr := fr0; reader := 0; out := [] |}).
  assert (Hrun : forall evs, readLoop evs fr0 = loop evs s0) by reflexivity.
  rewrite length_append in Hsize.
  destruct (appends_whole "" ds s0)
    as (s' & new & Hloop & Hout & Hcat & Hrd & Hoff & Hp & Hf & Hr);
    [reflexivity | reflexivity | exact Hds | rewrite append_nil_l; lia |].
  rewrite append_nil_l in Hrd, Hoff. unfold GetOffset in Hoff.
  rewrite Hrun, loop_app, Hloop. simpl loop. unfold exit.
  eexists. split; [reflexivity |]. cbn [fr out].
  split; [now rewrite Hout |].
  destruct s' as [[fp off pp fl rn] rd' out'].
  cbn [fr reader out filepath offset pollPeriod file running] in *. subst.
  unfold Stop, Start. simpl.
  set (len := String.length (concat_chunks ds)) in *.
  assert (Hone : forall (r : FileReader) (k : nat),
    filepath r = path -> offset r = Z.of_nat len -> k = len ->
    exists s2,
      loop [poll (concat_chunks ds +:+ d) n]
        {| fr := r; reader := k; out := [] |} = Waiting s2 /\
      concat_messages (out s2) = d).
  { intros r k _ Hoffr ->.
    destruct (appends_whole (concat_chunks ds) [(d, n)]
                {| fr := r; reader := len; out := [] |})
      as (s2 & new2 & Hl2 & Hout2 & Hcat2 & _).
    - reflexivity.
    - exact Hoffr.
    - now constructor.
    - rewrite concat_chunks_cons. change (concat_chunks []) with "".
      simpl fst. rewrite append_nil_r, length_append. fold len. lia.
    - exists s2. split; [exact Hl2 |]. rewrite Hout2, app_nil_l, Hcat2.
      rewrite concat_chunks_cons. apply append_nil_r. }
  destruct (Z.ltb_spec 0 (Z.of_nat len)) as [Hpos|Hzero]; simpl.
  - split; [reflexivity |]. unfold readLoop. simpl.
    apply Hone; [reflexivity | reflexivity | exact (Nat2Z.id len)].
  - split; [reflexivity |]. unfold readLoop. simpl.
    apply Hone; [reflexivity | simpl; lia | lia].
Qed.

Lemma restart_resumes_after_whole_lines_witness :
  let ds := [("line 1" +:+ newline, 1); ("line 2" +:+ newline, 2)] in
  let d := "line 3" +:+ newline in
  exists s1,
    readLoop (appends "" ds ++ [Done])
      (fst (Start sound_fs (NewFileReader "app.log"))) = Exited s1 /\
    concat_messages (out s1) = concat_chunks ds /\
    snd (Start sound_fs (fr s1)) = None /\
    exists s2,
      readLoop [poll (concat_chunks ds +:+ d) 9]
        (fst (Start sound_fs (fr s1))) = Waiting s2 /\
      concat_messages (out s2) = d.
Proof.
  intros ds d.
  apply (restart_resumes_after_whole_lines "app.log" ds d 9).
  - apply List.Forall_cons; [right; now exists "line 1" |].
    apply List.Forall_cons; [right; now exists "line 2" |].
    apply List.Forall_nil.
  - right. now exists "line 3".
  - vm_compute. reflexivity.
Defined.

Lemma cut_line_first (body rest : string) :
  ~ occurs newline body ->
  cut_line (body +:+ newline +:+ rest) = Some (body +:+ newline, rest).
Proof.
  induction body as [|c body IH]; intros H; [reflexivity |].
  apply occurs_cons_inv in H as [Hc Hbody].
  rewrite !append_cons. simpl.
  destruct (Ascii.eqb_spec c "010") as [->|_]; [congruence |].
  now rewrite (IH Hbody).
Qed.

(** The offset moves before the send.  When the context is cancelled
    while the loop is blocked on sending a line, the loop returns with that
    line counted in [GetOffset] although it was never delivered: a reader
    started again from this offset begins after it. *)
Theorem cancelled_send_is_counted
    (c body rest : string) (tl : read_error) (n : Z) (evs : list event)
    (s : loop_state) :
  drop (reader s) c = body +:+ newline +:+ rest ->
  ~ occurs newline body ->
  exists s',
    loop (Ticker {| content := c; tail := tl; now := n;
                    cancel_after := Some 0%nat |} :: evs) s = Exited s' /\
    out s' = out s /\
    GetOffset (fr s')
      = int64 (GetOffset (fr s)
               + int64 (Z.of_nat (String.length (body +:+ newline)))) /\
    reader s' = (reader s + String.length (body +:+ newline))%nat.
Proof.
  intros Hdrop Hbody. rewrite loop_tick, read_lines_S. simpl content.
  rewrite Hdrop, (cut_line_first _ _ Hbody). cbv zeta.
  unfold cancelled. simpl. eexists. split; [reflexivity |].
  simpl. unfold GetOffset. rewrite Stop_offset. repeat split.
Qed.

Lemma cancelled_send_is_counted_witness :
  exists s',
    readLoop [Ticker {| content := "lost" +:+ newline +:+ "next" +:+ newline;
                        tail := io_EOF; now := 3;
                        cancel_after := Some 0%nat |}]
      (fst (Start sound_fs (NewFileReader "app.log"))) = Exited s' /\
    out s' = [] /\
    GetOffset (fr s') = int64 (0 + int64 5) /\
    reader s' = 5%nat.
Proof.
  refine (cancelled_send_is_counted
            ("lost" +:+ newline +:+ "next" +:+ newline) "lost"
            ("next" +:+ newline) io_EOF 3 []
            {| fr := fst (Start sound_fs (NewFileReader "app.log"));
               reader := 0; out := [] |} eq_refl _).
  intros (pre & post & E).
  destruct pre as [|a [|b [|c [|d [|e pre]]]]]; discriminate.
Defined.

Lemma loop_stops_only_by_returning_witness :
  exists s',
    readLoop [poll ("a" +:+ newline) 1; Done]
      (fst (Start sound_fs (NewFileReader "app.log"))) = Exited s' /\
    running (fr s') = false /\
    file (fr s') = Some {| name := "app.log"; pos := 0; closed := true |}.
Proof.
  eexists. split; [reflexivity |].
  destruct (proj2 (loop_stops_only_by_returning
                     [poll ("a" +:+ newline) 1; Done]
                     {| fr := fst (Start sound_fs (NewFileReader "app.log"));
                        reader := 0; out := [] |} _) eq_refl)
    as (Hrun & Hfile & _).
  exact (conj Hrun (Hfile eq_refl _ eq_refl)).
Defined.

End file_more.

(** * More on the lifecycle *)
Section lifecycle_more.

(** [Stop] is idempotent on the file reader and on the HTTP receiver:
    a second [Stop] returns nil and changes nothing, whatever the first
    one returned; it does not close the file or shut the server down
    again, whatever [Shutdown] would answer. *)
Theorem stop_is_idempotent :
  (forall fr,
      file_reader.Stop (fst (file_reader.Stop fr))
        = (fst (file_reader.Stop fr), None)) /\
  (forall e1 e2 hr,
      http_receiver.Stop e2 (fst (http_receiver.Stop e1 hr))
        = (fst (http_receiver.Stop e1 hr), None)).
Proof.
  split.
  - intros fr. unfold file_reader.Stop.
    destruct (file_reader.running fr) eqn:E; simpl; [| now rewrite E].
    destruct (file_reader.file fr) as [f|];
      [destruct (file_reader.closed f) |]; reflexivity.
  - intros e1 e2 hr. unfold http_receiver.Stop.
    destruct (http_receiver.running hr) eqn:E; simpl; [| now rewrite E].
    destruct (http_receiver.server hr); reflexivity.
Qed.



(** When [FileReader.Start] succeeds.  It returns nil exactly when the
    reader is not running, the file opens and, for a positive offset, the
    seek succeeds; the reader is then running with the file open at the
    offset (at 0 for an offset that is not positive).  On a running
    reader it returns an error and changes nothing. *)
Theorem file_start_succeeds_iff
    (sys : file_reader.filesystem) (fr : file_reader.FileReader) :
  (snd (file_reader.Start sys fr) = None <->
   file_reader.running fr = false /\
   file_reader.Open sys (file_reader.filepath fr) = None /\
   (file_reader.offset fr <= 0 \/
    file_reader.Seek sys (file_reader.filepath fr) (file_reader.offset fr)
      = None)) /\
  (snd (file_reader.Start sys fr) = None ->
   file_reader.running (fst (file_reader.Start sys fr)) = true /\
   file_reader.file (fst (file_reader.Start sys fr))
     = Some {| file_reader.name := file_reader.filepath fr;
               file_reader.pos := Z.max 0 (file_reader.offset fr);
               file_reader.closed := false |} /\
   file_reader.GetOffset (fst (file_reader.Start sys fr))
     = file_reader.GetOffset fr) /\
  (file_reader.running fr = true ->
   file_reader.Start sys fr = (fr, Some "file reader already running")).
Proof.
  unfold file_reader.Start, file_reader.GetOffset.
  destruct (file_reader.running fr) eqn:Hrun; simpl.
  { repeat split; try discriminate. intros (H & _). discriminate. }
  destruct (file_reader.Open sys (file_reader.filepath fr)) as [e|] eqn:Hopen;
    simpl.
  { repeat split; try discriminate. intros (_ & H & _). discriminate. }
  destruct (Z.ltb_spec 0 (file_reader.offset fr)) as [Hpos|Hnonpos]; simpl.
  - destruct (file_reader.Seek sys (file_reader.filepath fr)
                (file_reader.offset fr)) as [e|] eqn:Hseek; simpl.
    + repeat split; try discriminate. intros (_ & _ & [H|H]); [lia |].
      discriminate.
    + repeat split; intros; auto; f_equal; f_equal; lia.
  - repeat split; intros; auto; try (left; lia); f_equal; f_equal; lia.
Qed.

Lemma file_start_succeeds_iff_witness :
  let fr := file_reader.set_offset 12 (file_reader.NewFileReader "app.log") in
  snd (file_reader.Start sound_fs fr) = None /\
  file_reader.file (fst (file_reader.Start sound_fs fr))
    = Some {| file_reader.name := "app.log"; file_reader.pos := 12;
              file_reader.closed := false |} /\
  file_reader.Start sound_fs (fst (file_reader.Start sound_fs fr))
    = (fst (file_reader.Start sound_fs fr),
       Some "file reader already running").
Proof.
  intros fr.
  destruct (file_start_succeeds_iff sound_fs fr) as (_ & Hok & _).
  destruct (Hok eq_refl) as (_ & Hfile & _).
  destruct (file_start_succeeds_iff sound_fs
              (fst (file_reader.Start sound_fs fr))) as (_ & _ & Hagain).
  exact (conj eq_refl (conj Hfile (Hagain eq_refl))).
Defined.

(** When [SyslogReceiver.Start] succeeds.  It returns nil exactly when
    the receiver is not running and either its protocol is "udp" and the
    address resolves and binds, or its protocol is "tcp" and the address
    binds; the receiver is then running and holds the listener of its
    protocol.  On a running receiver it returns an error and changes
    nothing. *)
Theorem syslog_start_succeeds_iff
    (net : syslog_receiver.network) (sr : syslog_receiver.SyslogReceiver) :
  (snd (syslog_receiver.Start net sr) = None <->
   syslog_receiver.running sr = false /\
   ((syslog_receiver.protocol sr = "udp" /\
     syslog_receiver.ResolveUDPAddr net (syslog_receiver.addr sr) = None /\
     syslog_receiver.ListenUDP net (syslog_receiver.addr sr) = None) \/
    (syslog_receiver.protocol sr = "tcp" /\
     syslog_receiver.ListenTCP net (syslog_receiver.addr sr) = None))) /\
  (snd (syslog_receiver.Start net sr) = None ->
   syslog_receiver.running (fst (syslog_receiver.Start net sr)) = true /\
   syslog_receiver.listener (fst (syslog_receiver.Start net sr))
     = Some (if String.eqb (syslog_receiver.protocol sr) "udp"
             then syslog_receiver.UDPConn
             else syslog_receiver.TCPListener)) /\
  (syslog_receiver.running sr = true ->
   syslog_receiver.Start net sr
     = (sr, Some "syslog receiver already running")).
Proof.
  unfold syslog_receiver.Start, syslog_receiver.startUDP,
    syslog_receiver.startTCP.
  destruct (syslog_receiver.running sr) eqn:Hrun; simpl.
  { repeat split; try discriminate. intros (H & _). discriminate. }
  destruct (String.eqb_spec (syslog_receiver.protocol sr) "udp") as [Hudp|Hudp].
  - destruct (syslog_receiver.ResolveUDPAddr net (syslog_receiver.addr sr))
      as [e|] eqn:Hres; simpl.
    { repeat split; try discriminate.
      intros (_ & [(_ & H & _)|(H & _)]); [discriminate |].
      rewrite Hudp in H. discriminate. }
    destruct (syslog_receiver.ListenUDP net (syslog_receiver.addr sr))
      as [e|] eqn:Hbind; simpl.
    { repeat split; try discriminate.
      intros (_ & [(_ & _ & H)|(H & _)]); [discriminate |].
      rewrite Hudp in H. discriminate. }
    repeat split; intros; auto; discriminate.
  - destruct (String.eqb_spec (syslog_receiver.protocol sr) "tcp")
      as [Htcp|Htcp].
    + destruct (syslog_receiver.ListenTCP net (syslog_receiver.addr sr))
        as [e|] eqn:Hbind; simpl.
      { repeat split; try discriminate.
        intros (_ & [(H & _)|(_ & H)]); [contradiction | discriminate]. }
      repeat split; intros; auto; discriminate.
    + simpl. repeat split; try discriminate.
      intros (_ & [(H & _)|(H & _)]); contradiction.
Qed.

Lemma syslog_start_succeeds_iff_witness :
  let net := {| syslog_receiver.ResolveUDPAddr := fun _ => None;
                syslog_receiver.ListenUDP := fun _ => None;
                syslog_receiver.ListenTCP :=
                  fun _ => Some "address in use" |} in
  let sr := syslog_receiver.NewSyslogReceiver gostrings.lower_ascii
              ":514" "UDP" in
  snd (syslog_receiver.Start net sr) = None /\
  syslog_receiver.listener (fst (syslog_receiver.Start net sr))
    = Some syslog_receiver.UDPConn.
Proof.
  intros net sr.
  destruct (syslog_start_succeeds_iff net sr) as (_ & Hok & _).
  exact (conj eq_refl (proj2 (Hok eq_refl))).
Defined.

End lifecycle_more.

(** * More on the syslog receiver *)
Section syslog_more.
Import gostrings models syslog_receiver.

(** [strings.ToLower]. *)
Variable ToLower : string -> string.

Ltac level_split :=
  repeat match goal with
         | |- context [if ?c then _ else _] => destruct c
         end.

Lemma parse_Message (now : Z) (sr : SyslogReceiver) (raw : string) :
  Message (parseSyslogMessage ToLower now sr raw) = raw.
Proof.
  unfold parseSyslogMessage.
  destruct (HasPrefix raw "<");
    [destruct ((0 <? Index raw ">") && (Index raw ">" <? 10)) |];
    level_split; reflexivity.
Qed.

Lemma tagged_test (raw p rest : string) :
  tagged raw p rest ->
  HasPrefix raw "<" = true /\
  (0 <? Index raw ">") && (Index raw ">" <? 10) = true.
Proof.
  intros (-> & Hp & Hlen). split; [apply tag_prefix |].
  rewrite (tag_index _ _ Hp). apply andb_true_iff.
  split; apply Z.ltb_lt; lia.
Qed.

(** The two fields put the message back together: when a priority [p]
    is stored, the message is ["<" p ">"] followed by the stored raw text;
    when none is stored, the raw text is the message. *)
Theorem parse_fields_reassemble_message
    (now : Z) (sr : SyslogReceiver) (raw : string) :
  let e := parseSyslogMessage ToLower now sr raw in
  match Fields e !! "priority" with
  | Some (VString p) =>
      exists rest,
        Fields e !! "raw" = Some (VString rest) /\
        Message e = "<" +:+ p +:+ ">" +:+ rest /\
        (String.length p < 9)%nat
  | Some _ => False
  | None => Fields e !! "raw" = Some (VString (Message e))
  end.
Proof.
  intros e. subst e. rewrite parse_Message.
  destruct (HasPrefix raw "<") eqn:Hpre;
    [destruct ((0 <? Index raw ">") && (Index raw ">" <? 10)) eqn:Hidx |].
  - destruct (tag_test_inv raw Hpre Hidx) as (p & rest & Htag).
    destruct (parse_tagged ToLower now sr raw p rest Htag) as [Hp Hr].
    rewrite Hp. exists rest. destruct Htag as (E & _ & Hlen). auto.
  - destruct (parse_untagged ToLower now sr raw) as [Hr Hp].
    + intros (p & rest & Htag). apply tagged_test in Htag as [_ H].
      congruence.
    + now rewrite Hp.
  - destruct (parse_untagged ToLower now sr raw) as [Hr Hp].
    + intros (p & rest & Htag). apply tagged_test in Htag as [H _].
      congruence.
    + now rewrite Hp.
Qed.

(** What every parsed record carries: the source "syslog:" followed by
    the receiver's protocol, the clock reading, one of the five levels,
    and no field other than "raw", which is always there, and
    "priority". *)
Theorem parse_record_shape (now : Z) (sr : SyslogReceiver) (raw : string) :
  let e := parseSyslogMessage ToLower now sr raw in
  Source e = "syslog:" +:+ protocol sr /\
  Timestamp e = now /\
  Level e
    ∈ [LevelDebug; LevelInfo; LevelWarning; LevelError; LevelCritical] /\
  is_Some (Fields e !! "raw") /\
  (forall k, k <> "raw" -> k <> "priority" -> Fields e !! k = None).
Proof.
  intros e. subst e. unfold parseSyslogMessage.
  destruct (HasPrefix raw "<");
    [destruct ((0 <? Index raw ">") && (Index raw ">" <? 10)) |].
  all: split; [level_split; reflexivity |].
  all: split; [level_split; reflexivity |].
  all: split; [level_split; simpl; set_solver |].
  all: split; [level_split; simpl; rewrite lookup_insert_eq; eauto |].
  all: intros k Hraw Hprio; level_split; simpl;
    rewrite ?lookup_insert_ne by congruence; apply lookup_empty.
Qed.

(** ** Letter case *)

Lemma lower_byte_idem (c : ascii) : lower_byte (lower_byte c) = lower_byte c.
Proof. destruct c as [[] [] [] [] [] [] [] []]; reflexivity. Qed.

Lemma lower_byte_lt (c : ascii) :
  Ascii.eqb "<" (lower_byte c) = Ascii.eqb "<" c.
Proof. destruct c as [[] [] [] [] [] [] [] []]; reflexivity. Qed.

Lemma lower_byte_gt (c : ascii) :
  Ascii.eqb ">" (lower_byte c) = Ascii.eqb ">" c.
Proof. destruct c as [[] [] [] [] [] [] [] []]; reflexivity. Qed.

Lemma ascii_lower_byte (c : ascii) : ascii_byte (lower_byte c) = ascii_byte c.
Proof. destruct c as [[] [] [] [] [] [] [] []]; reflexivity. Qed.

Lemma lower_ascii_idem (s : string) :
  lower_ascii (lower_ascii s) = lower_ascii s.
Proof.
  induction s as [|c s IH]; simpl; [reflexivity |].
  now rewrite lower_byte_idem, IH.
Qed.

Lemma length_lower_ascii (s : string) :
  String.length (lower_ascii s) = String.length s.
Proof. induction s as [|c s IH]; simpl; [reflexivity | now rewrite IH]. Qed.

Lemma is_ascii_lower_ascii (s : string) :
  is_ascii (lower_ascii s) = is_ascii s.
Proof.
  induction s as [|c s IH]; simpl; [reflexivity |].
  now rewrite ascii_lower_byte, IH.
Qed.

Lemma is_ascii_substring (n m : nat) (s : string) :
  is_ascii s = true -> is_ascii (substring n m s) = true.
Proof.
  revert n m; induction s as [|c s IH]; intros [|n] [|m] H; simpl;
    try reflexivity; simpl in H; apply andb_true_iff in H as [Hc Hs].
  - rewrite Hc. now apply IH.
  - now apply IH.
  - now apply IH.
Qed.

Lemma HasPrefix_lower_ascii_lt (s : string) :
  HasPrefix (lower_ascii s) "<" = HasPrefix s "<".
Proof.
  destruct s as [|c s]; [reflexivity |].
  change (HasPrefix (lower_ascii (String c s)) "<")
    with (if Ascii.eqb "<" (lower_byte c)
          then HasPrefix (lower_ascii s) "" else false).
  change (HasPrefix (String c s) "<")
    with (if Ascii.eqb "<" c then HasPrefix s "" else false).
  now rewrite lower_byte_lt, !HasPrefix_nil.
Qed.

Lemma Index_lower_ascii_gt (s : string) :
  Index (lower_ascii s) ">" = Index s ">".
Proof.
  induction s as [|c s IH]; [reflexivity |].
  rewrite (Index_unfold (String c s)). simpl lower_ascii.
  rewrite Index_unfold.
  change (HasPrefix (String (lower_byte c) (lower_ascii s)) ">")
    with (if Ascii.eqb ">" (lower_byte c)
          then HasPrefix (lower_ascii s) "" else false).
  change (HasPrefix (String c s) ">")
    with (if Ascii.eqb ">" c then HasPrefix s "" else false).
  rewrite lower_byte_gt, !HasPrefix_nil, IH. reflexivity.
Qed.

Lemma substring_lower_ascii (n m : nat) (s : string) :
  substring n m (lower_ascii s) = lower_ascii (substring n m s).
Proof.
  revert n m; induction s as [|c s IH]; intros [|n] [|m]; simpl;
    try reflexivity; try apply IH.
  now rewrite IH.
Qed.

(** The text stored as [fields["raw"]], as the code computes it. *)
Lemma parse_raw_field (lower : string -> string)
    (now : Z) (sr : SyslogReceiver) (raw : string) :
  Fields (parseSyslogMessage lower now sr raw) !! "raw"
    = Some (VString
              (if HasPrefix raw "<"
                  && ((0 <? Index raw ">") && (Index raw ">" <? 10))
               then slice_from raw (Index raw ">" + 1)
               else raw)).
Proof.
  unfold parseSyslogMessage.
  destruct (HasPrefix raw "<");
    [destruct ((0 <? Index raw ">") && (Index raw ">" <? 10)) |];
    cbn [andb]; level_split; simpl; apply lookup_insert_eq.
Qed.

(** On a message of ASCII bytes the level is that of the message
    lower-cased byte by byte. *)
Lemma parse_lower_ascii_level (now : Z) (sr : SyslogReceiver) (raw : string) :
  lower_on_ascii ToLower ->
  is_ascii raw = true ->
  forall now' sr',
    Level (parseSyslogMessage ToLower now sr raw)
      = Level (parseSyslogMessage lower_ascii now' sr' (lower_ascii raw)).
Proof.
  intros Hlower Hascii now' sr'.
  destruct (parse_raw_level ToLower now sr raw) as (r1 & H1 & ->).
  destruct (parse_raw_level lower_ascii now' sr' (lower_ascii raw))
    as (r2 & H2 & ->).
  rewrite parse_raw_field in H1, H2.
  rewrite HasPrefix_lower_ascii_lt, Index_lower_ascii_gt in H2.
  assert (E : r2 = lower_ascii r1 /\ is_ascii r1 = true).
  { destruct (HasPrefix raw "<" && _);
      injection H1 as <-; injection H2 as <-; [| now split].
    unfold slice_from, slice.
    rewrite substring_lower_ascii, length_lower_ascii.
    split; [reflexivity | now apply is_ascii_substring]. }
  destruct E as [-> Hr1].
  rewrite (Hlower r1 Hr1), lower_ascii_idem. reflexivity.
Qed.

(** On messages of ASCII bytes, which [strings.ToLower] lower-cases byte
    by byte, the level does not depend on letter case, nor on the
    receiver or the clock: two such messages that differ only in the
    case of their letters are given the same level. *)
Theorem level_ignores_letter_case
    (now1 now2 : Z) (sr1 sr2 : SyslogReceiver) (raw1 raw2 : string) :
  lower_on_ascii ToLower ->
  is_ascii raw1 = true ->
  lower_ascii raw1 = lower_ascii raw2 ->
  Level (parseSyslogMessage ToLower now1 sr1 raw1)
    = Level (parseSyslogMessage ToLower now2 sr2 raw2).
Proof.
  intros Hlower H1 E.
  assert (H2 : is_ascii raw2 = true).
  { now rewrite <- is_ascii_lower_ascii, <- E, is_ascii_lower_ascii. }
  rewrite (parse_lower_ascii_level now1 sr1 raw1 Hlower H1 now2 sr2), E.
  symmetry. now apply parse_lower_ascii_level.
Qed.

(** ** The read loops *)

Lemma nonempty_read (d : string) :
  (0 <? Z.of_nat (String.length d)) = negb (String.eqb d "").
Proof. destruct d; reflexivity. Qed.

Lemma readUDP_live (sr : SyslogReceiver) (evs : list udp_event) :
  udp_live evs ->
  forall out,
    readUDP ToLower sr evs out = (out ++ syslog_records ToLower sr (udp_reads evs), false).
Proof.
  unfold udp_live, udp_reads, syslog_records.
  induction 1 as [|ev evs Hev _ IH]; intros out; simpl.
  - now rewrite app_nil_r.
  - destruct ev as [| |msg|n d delivered]; simpl; try apply IH; [easy |].
    rewrite nonempty_read.
    destruct (String.eqb_spec d "") as [->|Hd]; simpl; [apply IH |].
    destruct Hev as [->| ->]; [contradiction |].
    rewrite IH, <- app_assoc. reflexivity.
Qed.

Lemma readUDP_app (sr : SyslogReceiver) (evs1 evs2 : list udp_event) :
  udp_live evs1 ->
  forall out,
    readUDP ToLower sr (evs1 ++ evs2) out
      = readUDP ToLower sr evs2 (out ++ syslog_records ToLower sr (udp_reads evs1)).
Proof.
  unfold udp_live, udp_reads, syslog_records.
  induction 1 as [|ev evs Hev _ IH]; intros out; simpl.
  - now rewrite app_nil_r.
  - destruct ev as [| |msg|n d delivered]; simpl; try apply IH; [easy |].
    rewrite nonempty_read.
    destruct (String.eqb_spec d "") as [->|Hd]; simpl; [apply IH |].
    destruct Hev as [->| ->]; [contradiction |].
    rewrite IH, <- app_assoc. reflexivity.
Qed.

(** One datagram, one record.  As long as the context is live and the
    sends go through, [readUDP] keeps reading: timeouts, other read errors
    and empty datagrams emit nothing and do not end it, and the records
    delivered are those of the datagrams that carry data, in arrival
    order, each with the datagram as its message.  Once the context is
    done the function returns and reads nothing more. *)
Theorem udp_one_record_per_datagram
    (sr : SyslogReceiver) (evs later : list udp_event)
    (out : list LogEntry) :
  udp_live evs ->
  readUDP ToLower sr evs out = (out ++ syslog_records ToLower sr (udp_reads evs), false) /\
  readUDP ToLower sr (evs ++ UDPDone :: later) out
    = (out ++ syslog_records ToLower sr (udp_reads evs), true) /\
  map Message (syslog_records ToLower sr (udp_reads evs)) = map snd (udp_reads evs).
Proof.
  intros Hlive. split; [now apply readUDP_live |].
  split; [now rewrite readUDP_app |].
  unfold syslog_records. rewrite map_map. apply map_ext.
  intros m. apply parse_Message.
Qed.

Lemma handleTCPConnection_app
    (sr : SyslogReceiver) (evs1 evs2 : list scan_event) :
  tcp_live evs1 ->
  forall out,
    handleTCPConnection ToLower sr (evs1 ++ evs2) out
      = handleTCPConnection ToLower sr evs2
          (out ++ syslog_records ToLower sr (tcp_lines evs1)).
Proof.
  unfold tcp_live, tcp_lines, syslog_records.
  induction 1 as [|ev evs Hev _ IH]; intros out; simpl.
  - now rewrite app_nil_r.
  - destruct ev as [|err|n d delivered]; simpl; try easy.
    destruct (String.eqb_spec d "") as [->|Hd]; simpl; [apply IH |].
    destruct Hev as [->| ->]; [contradiction |].
    rewrite IH, <- app_assoc. reflexivity.
Qed.

(** One line, one record.  On a connection, while the context is live
    and the sends go through, every non-empty line the scanner hands out
    becomes one record with the line as its message, in order; empty
    lines are skipped.  The first failed [Scan], end of stream or error,
    ends the handler: nothing that follows is read. *)
Theorem tcp_one_record_per_line
    (sr : SyslogReceiver) (evs later : list scan_event) (err : error)
    (out : list LogEntry) :
  tcp_live evs ->
  handleTCPConnection ToLower sr evs out
    = (out ++ syslog_records ToLower sr (tcp_lines evs), false) /\
  handleTCPConnection ToLower sr (evs ++ ScanStop err :: later) out
    = (out ++ syslog_records ToLower sr (tcp_lines evs), true) /\
  map Message (syslog_records ToLower sr (tcp_lines evs)) = map snd (tcp_lines evs).
Proof.
  intros Hlive. split; [| split].
  - rewrite <- (app_nil_r evs) at 1. now rewrite handleTCPConnection_app.
  - now rewrite handleTCPConnection_app.
  - unfold syslog_records. rewrite map_map. apply map_ext.
    intros m. apply parse_Message.
Qed.

End syslog_more.

(** The statements above at the byte-wise lower-casing. *)
Section syslog_more_examples.
Import gostrings models syslog_receiver.

Lemma parse_record_shape_witness :
  let e := parseSyslogMessage lower_ascii 9 (NewSyslogReceiver lower_ascii ":514" "TCP")
             "<34>disk failure" in
  Source e = "syslog:tcp" /\ Fields e !! "host" = None.
Proof.
  intros e.
  destruct (parse_record_shape lower_ascii 9 (NewSyslogReceiver lower_ascii ":514" "TCP")
              "<34>disk failure") as (Hsrc & _ & _ & _ & Hkeys).
  split; [exact Hsrc |]. apply Hkeys; discriminate.
Defined.

Lemma level_ignores_letter_case_witness :
  is_ascii "<34>Disk ERROR" = true /\
  lower_ascii "<34>Disk ERROR" = lower_ascii "<34>DISK error" /\
  Level (parseSyslogMessage lower_ascii 1
           (NewSyslogReceiver lower_ascii ":514" "udp") "<34>Disk ERROR")
    = Level (parseSyslogMessage lower_ascii 2
               (NewSyslogReceiver lower_ascii ":601" "tcp")
               "<34>DISK error").
Proof.
  assert (Hl : lower_on_ascii lower_ascii) by (intros s _; reflexivity).
  assert (Ha : is_ascii "<34>Disk ERROR" = true) by reflexivity.
  assert (H : lower_ascii "<34>Disk ERROR" = lower_ascii "<34>DISK error")
    by reflexivity.
  exact (conj Ha
           (conj H (level_ignores_letter_case lower_ascii 1 2 _ _ _ _
                      Hl Ha H))).
Defined.

Lemma udp_one_record_per_datagram_witness :
  let sr := NewSyslogReceiver lower_ascii ":514" "udp" in
  let evs := [UDPTimeout; UDPRead 1 "<34>first" true; UDPError "refused";
              UDPRead 2 "" true; UDPRead 3 "second" true] in
  udp_live evs /\
  map Message (fst (readUDP lower_ascii sr (evs ++ [UDPDone; UDPRead 4 "late" true]) []))
    = ["<34>first"; "second"].
Proof.
  intros sr evs.
  assert (H : udp_live evs).
  { repeat (apply List.Forall_cons; [simpl; auto |]). apply List.Forall_nil. }
  split; [exact H |].
  destruct (udp_one_record_per_datagram lower_ascii sr evs [UDPRead 4 "late" true] [] H)
    as (_ & Hdone & Hmsg).
  rewrite Hdone. exact Hmsg.
Defined.

Lemma tcp_one_record_per_line_witness :
  let sr := NewSyslogReceiver lower_ascii ":514" "tcp" in
  let evs := [ScanLine 1 "<34>first" true; ScanLine 2 "" true;
              ScanLine 3 "second" true] in
  tcp_live evs /\
  map Message
    (fst (handleTCPConnection lower_ascii sr
            (evs ++ [ScanStop (Some "i/o timeout"); ScanLine 4 "late" true])
            []))
    = ["<34>first"; "second"].
Proof.
  intros sr evs.
  assert (H : tcp_live evs).
  { repeat (apply List.Forall_cons; [simpl; auto |]). apply List.Forall_nil. }
  split; [exact H |].
  destruct (tcp_one_record_per_line lower_ascii sr evs [ScanLine 4 "late" true]
              (Some "i/o timeout") [] H) as (_ & Hstop & Hmsg).
  rewrite Hstop. exact Hmsg.
Defined.

End syslog_more_examples.

(** * More on the HTTP receiver *)
Section http_more.
Import models channel http_receiver.

(** The two handlers build their record by the same rule: the message
    as submitted, the source as submitted or "http" when it is empty, the
    fields as submitted or an empty map when there are none, the clock
    reading as timestamp. *)
Theorem http_entry_conversion (now : Z) (d : logData.t) :
  handleBatch_entry now d = handleLogs_entry now d /\
  Message (handleLogs_entry now d) = logData.Message d /\
  Source (handleLogs_entry now d)
    = (if String.eqb (logData.Source d) "" then "http" else logData.Source d) /\
  Source (handleLogs_entry now d) <> "" /\
  Fields (handleLogs_entry now d) = default ∅ (logData.Fields d) /\
  Timestamp (handleLogs_entry now d) = now.
Proof.
  split; [reflexivity |]. unfold handleLogs_entry. simpl.
  destruct (String.eqb_spec (logData.Source d) "") as [Hs|Hs];
    repeat match goal with
           | |- context [if ?c then _ else _] => destruct c
           end;
    destruct (logData.Fields d); simpl; repeat split; congruence.
Qed.

Ltac listed := rewrite !elem_of_cons; auto 10.
Ltac unlisted H := rewrite !elem_of_cons, elem_of_nil in H; lia.

Lemma handleLogs_status (now : Z) (ch : chan) (r : Request logData.t) :
  (StatusCode (snd (handleLogs now ch r)) = 202 /\
   exists d, Method r = "POST" /\ Body r = Decoded d /\
             (length (buffer ch) < capacity ch)%nat /\
             fst (handleLogs now ch r)
               = {| buffer := buffer ch ++ [handleLogs_entry now d];
                    capacity := capacity ch |}) \/
  (StatusCode (snd (handleLogs now ch r)) ∈ [400; 405; 503] /\
   fst (handleLogs now ch r) = ch).
Proof.
  unfold handleLogs.
  destruct (String.eqb_spec (Method r) "POST") as [Hm|Hm]; simpl;
    [| right; split; [listed | reflexivity]].
  destruct (Body r) as [| |d];
    try (right; split; [simpl; listed | reflexivity]).
  unfold try_send.
  destruct (Nat.ltb_spec (length (buffer ch)) (capacity ch)); simpl.
  - left. split; [reflexivity |]. now exists d.
  - right. split; [listed | reflexivity].
Qed.

(** The answers of [POST /logs].  The status is 202, 400, 405 or 503.
    It is 202 only for a POST whose body decoded and that found room:
    then exactly the record built from the body has joined the end of the
    queue.  With any other status the queue is untouched.  The method is
    looked at first: a request that is not a POST gets 405 whatever its
    body. *)
Theorem logs_answers (now : Z) (ch : chan) (r : Request logData.t) :
  StatusCode (snd (handleLogs now ch r)) ∈ [202; 400; 405; 503] /\
  (StatusCode (snd (handleLogs now ch r)) = 202 ->
   exists d, Method r = "POST" /\ Body r = Decoded d /\
             fst (handleLogs now ch r)
               = {| buffer := buffer ch ++ [handleLogs_entry now d];
                    capacity := capacity ch |}) /\
  (StatusCode (snd (handleLogs now ch r)) <> 202 ->
   fst (handleLogs now ch r) = ch) /\
  (Method r <> "POST" -> StatusCode (snd (handleLogs now ch r)) = 405).
Proof.
  destruct (handleLogs_status now ch r)
    as [(H202 & d & Hm & Hb & _ & Hch)|(Hcode & Hch)].
  - rewrite H202. repeat split.
    + listed.
    + intros _. now exists d.
    + congruence.
    + congruence.
  - repeat split.
    + revert Hcode. rewrite !elem_of_cons. tauto.
    + intros H. rewrite H in Hcode. unlisted Hcode.
    + intros _. exact Hch.
    + intros Hm. unfold handleLogs.
      apply String.eqb_neq in Hm. now rewrite Hm.
Qed.

Lemma logs_answers_witness :
  let r := {| Method := "GET"; Body := @InvalidJSON logData.t |} in
  Method r <> "POST" /\
  StatusCode (snd (handleLogs 0 (make 4) r)) = 405 /\
  fst (handleLogs 0 (make 4) r) = make 4.
Proof.
  intros r.
  assert (H : Method r <> "POST") by discriminate.
  destruct (logs_answers 0 (make 4) r) as (_ & _ & Hkeep & H405).
  split; [exact H |]. split; [exact (H405 H) |].
  apply Hkeep. rewrite (H405 H). discriminate.
Defined.

(** The answers of [POST /batch].  The status is 202, 400 or 405, never
    503.  With a status other than 202 the queue is untouched; a request
    that is not a POST gets 405 whatever its body. *)
Theorem batch_answers (now : Z) (ch : chan) (r : Request (list logData.t)) :
  StatusCode (snd (handleBatch now ch r)) ∈ [202; 400; 405] /\
  (StatusCode (snd (handleBatch now ch r)) = 202 <->
   Method r = "POST" /\ exists logs, Body r = Decoded logs) /\
  (StatusCode (snd (handleBatch now ch r)) <> 202 ->
   fst (handleBatch now ch r) = ch) /\
  (Method r <> "POST" -> StatusCode (snd (handleBatch now ch r)) = 405).
Proof.
  unfold handleBatch.
  destruct (String.eqb_spec (Method r) "POST") as [Hm|Hm]; simpl.
  - destruct (Body r) as [| |logs]; simpl.
    + split; [listed |]. split; [split |].
      * discriminate.
      * intros (_ & logs & H). discriminate.
      * split; [reflexivity | congruence].
    + split; [listed |]. split; [split |].
      * discriminate.
      * intros (_ & logs & H). discriminate.
      * split; [reflexivity | congruence].
    + destruct (handleBatch_loop now logs ch 0) as [ch' accepted]. simpl.
      split; [listed |]. split; [split; eauto |].
      split; [intros H; now destruct H | intros H; contradiction].
  - split; [listed |]. split; [split |].
    + discriminate.
    + intros (H & _). contradiction.
    + split; reflexivity.
Qed.

Lemma batch_answers_witness :
  let r := {| Method := "PUT"; Body := Decoded ([] : list logData.t) |} in
  Method r <> "POST" /\
  StatusCode (snd (handleBatch 0 (make 4) r)) = 405 /\
  fst (handleBatch 0 (make 4) r) = make 4.
Proof.
  intros r.
  assert (H : Method r <> "POST") by discriminate.
  destruct (batch_answers 0 (make 4) r) as (_ & _ & Hkeep & H405).
  split; [exact H |]. split; [exact (H405 H) |].
  apply Hkeep. rewrite (H405 H). discriminate.
Defined.

(** The handlers only ever add to the end of the queue: whatever the
    request, the capacity is unchanged, the entries already queued stay in
    place, and a queue within its capacity stays within it. *)
Theorem handlers_only_append
    (now : Z) (ch : chan) (rl : Request logData.t)
    (rb : Request (list logData.t)) :
  let after_logs := fst (handleLogs now ch rl) in
  let after_batch := fst (handleBatch now ch rb) in
  capacity after_logs = capacity ch /\
  capacity after_batch = capacity ch /\
  (exists added, buffer after_logs = buffer ch ++ added) /\
  (exists added, buffer after_batch = buffer ch ++ added) /\
  ((length (buffer ch) <= capacity ch)%nat ->
   (length (buffer after_logs) <= capacity ch)%nat /\
   (length (buffer after_batch) <= capacity ch)%nat).
Proof.
  intros after_logs after_batch.
  assert (Hl : exists added,
             after_logs = {| buffer := buffer ch ++ added;
                             capacity := capacity ch |} /\
             (length (buffer ch) <= capacity ch ->
              length (buffer ch ++ added) <= capacity ch)%nat).
  { subst after_logs.
    destruct (handleLogs_status now ch rl)
      as [(_ & d & _ & _ & Hroom & ->)|(_ & ->)].
    - eexists. split; [reflexivity |]. rewrite length_app. simpl. lia.
    - exists []. rewrite app_nil_r. split; [now destruct ch | auto]. }
  assert (Hb : exists added,
             after_batch = {| buffer := buffer ch ++ added;
                              capacity := capacity ch |} /\
             (length (buffer ch) <= capacity ch ->
              length (buffer ch ++ added) <= capacity ch)%nat).
  { subst after_batch. unfold handleBatch.
    destruct (negb (String.eqb (Method rb) "POST"));
      [exists []; rewrite app_nil_r; split; [now destruct ch | auto] |].
    destruct (Body rb) as [| |logs];
      try (exists []; rewrite app_nil_r; split; [now destruct ch | auto]).
    rewrite handleBatch_loop_spec. simpl. eexists. split; [reflexivity |].
    rewrite length_app, length_map, length_take. lia. }
  destruct Hl as (al & -> & Hal), Hb as (ab & -> & Hab). simpl.
  repeat split; eauto.
Qed.

Lemma handlers_only_append_witness :
  let ch := {| buffer := [NewLogEntry 0]; capacity := 2 |} in
  let items := [ {| logData.Level := "INFO"; logData.Message := "a";
                    logData.Source := ""; logData.Fields := None |};
                 {| logData.Level := "INFO"; logData.Message := "b";
                    logData.Source := ""; logData.Fields := None |} ] in
  (length (buffer ch) <= capacity ch)%nat /\
  (length (buffer (fst (handleBatch 0 ch (post items)))) <= capacity ch)%nat.
Proof.
  intros ch items.
  assert (H : (length (buffer ch) <= capacity ch)%nat) by (simpl; lia).
  destruct (handlers_only_append 0 ch
              {| Method := "POST"; Body := InvalidJSON |} (post items))
    as (_ & _ & _ & _ & Hcap).
  exact (conj H (proj2 (Hcap H))).
Defined.

Lemma handleBatch_loop_posts (now : Z) (logs : list logData.t) :
  forall (ch : chan) (accepted : Z),
    handleBatch_loop now logs ch accepted
      = (fst (post_each now logs ch), accepted + snd (post_each now logs ch)).
Proof.
  induction logs as [|d logs IH]; intros ch accepted; simpl.
  - now rewrite Z.add_0_r.
  - unfold handleLogs, post at 1 2. simpl.
    change (handleBatch_entry now d) with (handleLogs_entry now d).
    destruct (try_send (handleLogs_entry now d) ch) as [ch'|]; rewrite IH;
      destruct (post_each now logs _) as [ch'' k]; simpl; f_equal; lia.
Qed.

(** A batch is its items posted one by one.  The queue after
    [POST /batch] is the queue after posting each item, in order, to
    [/logs], and the [accepted] count it reports is the number of those
    posts answered 202. *)
Theorem batch_is_posts_in_sequence
    (now : Z) (ch : chan) (logs : list logData.t) :
  fst (handleBatch now ch (post logs)) = fst (post_each now logs ch) /\
  exists m,
    Written (snd (handleBatch now ch (post logs))) = JSON m /\
    m !! "accepted" = Some (VInt (snd (post_each now logs ch))) /\
    m !! "total" = Some (VInt (Z.of_nat (length logs))).
Proof.
  unfold handleBatch, post at 1 2 3. simpl.
  rewrite handleBatch_loop_posts. simpl. split; [reflexivity |].
  eexists. split; [reflexivity |]. split.
  - rewrite !lookup_insert_ne by discriminate. apply lookup_insert_eq.
  - rewrite lookup_insert_ne by discriminate. apply lookup_insert_eq.
Qed.

(** A batch that fits is enqueued whole.  When the queue has room for
    all [n] items, [POST /batch] appends the [n] records in the order
    submitted and reports [accepted = total = n]. *)
Theorem batch_with_room_is_enqueued_whole
    (now : Z) (ch : chan) (logs : list logData.t) :
  (length (buffer ch) + length logs <= capacity ch)%nat ->
  fst (handleBatch now ch (post logs))
    = {| buffer := buffer ch ++ map (handleLogs_entry now) logs;
         capacity := capacity ch |} /\
  StatusCode (snd (handleBatch now ch (post logs))) = 202 /\
  exists m,
    Written (snd (handleBatch now ch (post logs))) = JSON m /\
    m !! "accepted" = Some (VInt (Z.of_nat (length logs))) /\
    m !! "total" = Some (VInt (Z.of_nat (length logs))).
Proof.
  intros Hroom. unfold handleBatch, post. simpl.
  rewrite handleBatch_loop_spec. simpl.
  rewrite take_ge by lia. split; [reflexivity |]. split; [reflexivity |].
  eexists. split; [reflexivity |]. split.
  - rewrite !lookup_insert_ne by discriminate. apply lookup_insert_eq.
  - rewrite lookup_insert_ne by discriminate. apply lookup_insert_eq.
Qed.

Lemma batch_with_room_is_enqueued_whole_witness :
  let items := [ {| logData.Level := "INFO"; logData.Message := "Message 1";
                    logData.Source := ""; logData.Fields := None |};
                 {| logData.Level := "WARNING"; logData.Message := "Message 2";
                    logData.Source := ""; logData.Fields := None |};
                 {| logData.Level := "ERROR"; logData.Message := "Message 3";
                    logData.Source := ""; logData.Fields := None |} ] in
  (length (buffer (make 20)) + length items <= capacity (make 20))%nat /\
  map Level (buffer (fst (handleBatch 0 (make 20) (post items))))
    = [LevelInfo; LevelWarning; LevelError].
Proof.
  intros items.
  assert (H : (length (buffer (make 20)) + length items
               <= capacity (make 20))%nat) by (simpl; lia).
  split; [exact H |].
  rewrite (proj1 (batch_with_room_is_enqueued_whole 0 (make 20) items H)).
  reflexivity.
Defined.

End http_more.

(** * The command line tools *)
Section tools_more.
Import gostrings.

Lemma last_byte_app (s : string) (c : ascii) :
  last_byte (s +:+ String c "") = Some c.
Proof.
  induction s as [|a s IH]; [reflexivity |].
  rewrite append_cons. simpl. rewrite IH.
  destruct (s +:+ String c "") eqn:E; [| reflexivity].
  destruct s; discriminate.
Qed.

Lemma last_byte_inv (s : string) (c : ascii) :
  last_byte s = Some c -> exists body, s = body +:+ String c "".
Proof.
  induction s as [|a s IH]; [discriminate |].
  destruct s as [|b s].
  - simpl. intros H. injection H as ->. now exists "".
  - intros H. change (last_byte (String b s) = Some c) in H.
    destruct (IH H) as [body E]. rewrite E. now exists (String a body).
Qed.

Lemma last_byte_None (s : string) : last_byte s = None -> s = "".
Proof.
  induction s as [|a s IH]; [reflexivity |].
  destruct s as [|b s]; [discriminate |].
  intros H. change (last_byte (String b s) = None) in H.
  apply IH in H. discriminate.
Qed.

Lemma lacks_newline_false (s : string) :
  lacks_newline s = false -> s = "" \/ ends_with_newline s.
Proof.
  unfold lacks_newline. destruct (last_byte s) as [c|] eqn:E.
  - destruct (Ascii.eqb_spec c "010") as [->|]; [| discriminate].
    intros _. right. apply last_byte_inv in E as [body ->]. now exists body.
  - intros _. left. now apply last_byte_None.
Qed.

Lemma lacks_newline_terminated (body : string) :
  lacks_newline (body +:+ newline) = false.
Proof. unfold lacks_newline, newline. now rewrite last_byte_app. Qed.

Lemma lacks_newline_true (s : string) :
  lacks_newline s = true -> s <> "" /\ ~ ends_with_newline s.
Proof.
  intros H. split.
  - intros ->. discriminate.
  - intros [body ->]. now rewrite lacks_newline_terminated in H.
Qed.

(** What [send_syslog] puts on the wire.  The exit status is 0 exactly
    when a write succeeded, and 1 otherwise.  What was written went to
    the address given, over the protocol given, which must be spelled in
    lower case.  Over UDP it is the message as given.  Over TCP it is the
    message as given when that is empty or ends in a newline, and the
    message followed by one newline when it is not empty and does not end
    in one: a TCP payload is empty or ends in a newline. *)
Theorem send_syslog_payload
    (net : send_syslog.network) (args : list string) :
  let r := send_syslog.main net args in
  let message := nth 3 args "" in
  (send_syslog.status r = 0 <-> send_syslog.written r <> None) /\
  (send_syslog.status r = 0 \/ send_syslog.status r = 1) /\
  (forall nw address payload,
      send_syslog.written r = Some (nw, address, payload) ->
      nw = nth 1 args "" /\ address = nth 2 args "" /\
      ((nw = "udp" /\ payload = message) \/
       (nw = "tcp" /\
        (message = "" \/ ends_with_newline message -> payload = message) /\
        (message <> "" -> ~ ends_with_newline message ->
         payload = message +:+ newline) /\
        whole_lines payload))).
Proof.
  intros r message. subst r message. unfold send_syslog.main.
  destruct (length args <? 4)%nat.
  { simpl. repeat split; try discriminate; auto. intros H. now destruct H. }
  destruct (String.eqb_spec (nth 1 args "") "udp") as [Hudp|Hudp].
  { unfold send_syslog.sendUDP.
    destruct (send_syslog.Dial net "udp" _);
      [| destruct (send_syslog.Write net "udp" _ _)]; simpl.
    all: repeat split; try discriminate; auto; try (intros H; now destruct H).
    all: injection H as <- <- <-; auto. }
  destruct (String.eqb_spec (nth 1 args "") "tcp") as [Htcp|Htcp].
  { unfold send_syslog.sendTCP.
    destruct (send_syslog.Dial net "tcp" _);
      [| destruct (send_syslog.Write net "tcp" _ _)]; simpl.
    all: repeat split; try discriminate; auto; try (intros H; now destruct H).
    all: injection H as <- <- <-; auto.
    right. split; [reflexivity |].
    destruct (lacks_newline (nth 3 args "")) eqn:E.
    - apply lacks_newline_true in E as [Hne Hnl].
      split; [intros [H|H]; contradiction |].
      split; [reflexivity |]. right. now eexists.
    - apply lacks_newline_false in E.
      split; [reflexivity |]. split; [| exact E].
      intros Hne Hnl. destruct E; contradiction. }
  simpl. repeat split; try discriminate; auto. intros H. now destruct H.
Qed.

Lemma send_syslog_payload_witness :
  let net := {| send_syslog.Dial := fun _ _ => None;
                send_syslog.Write := fun _ _ _ => None |} in
  let sent m :=
    send_syslog.main net ["send_syslog"; "tcp"; "localhost:5140"; m] in
  (exists payload,
      send_syslog.written (sent "<34>Test message")
        = Some ("tcp", "localhost:5140", payload) /\
      payload = "<34>Test message" +:+ newline /\
      whole_lines payload) /\
  (exists payload,
      send_syslog.written (sent ("<34>Test message" +:+ newline))
        = Some ("tcp", "localhost:5140", payload) /\
      payload = "<34>Test message" +:+ newline) /\
  (exists payload,
      send_syslog.written (sent "")
        = Some ("tcp", "localhost:5140", payload) /\
      payload = "") /\
  send_syslog.status (sent "<34>Test message") = 0.
Proof.
  intros net sent. split; [| split; [| split]].
  - eexists. split; [reflexivity |].
    destruct (send_syslog_payload net
                ["send_syslog"; "tcp"; "localhost:5140"; "<34>Test message"])
      as (_ & _ & Hpayload).
    destruct (Hpayload _ _ _ eq_refl)
      as (_ & _ & [(E & _)|(_ & _ & Hadd & Hwhole)]); [discriminate |].
    split; [| exact Hwhole].
    apply Hadd; [discriminate |].
    now apply lacks_newline_true.
  - eexists. split; [reflexivity |].
    destruct (send_syslog_payload net
                ["send_syslog"; "tcp"; "localhost:5140";
                 "<34>Test message" +:+ newline])
      as (_ & _ & Hpayload).
    destruct (Hpayload _ _ _ eq_refl) as (_ & _ & [(E & _)|(_ & Hkeep & _)]);
      [discriminate |].
    apply Hkeep. right. now eexists.
  - eexists. split; [reflexivity |].
    destruct (send_syslog_payload net
                ["send_syslog"; "tcp"; "localhost:5140"; ""])
      as (_ & _ & Hpayload).
    destruct (Hpayload _ _ _ eq_refl) as (_ & _ & [(E & _)|(_ & Hkeep & _)]);
      [discriminate |].
    apply Hkeep. now left.
  - destruct (send_syslog_payload net
                ["send_syslog"; "tcp"; "localhost:5140"; "<34>Test message"])
      as (Hstatus & _).
    apply Hstatus. discriminate.
Defined.

End tools_more.

(** * The collector's modes *)
Section collector_more.

(** [strings.ToLower]. *)
Variable ToLower : string -> string.

(** The collector either exits with status 1 or serves a running
    source: whatever the arguments and the answers of the operating
    system, [main] ends in [os.Exit(1)], or waits for the signal with the
    source of the chosen mode constructed and its lifecycle flag set. *)
Theorem collector_exits_or_serves
    (sys : collector.system) (logChan : nat) (args : list string) :
  collector.main ToLower sys logChan args = collector.Exit 1 \/
  exists src,
    collector.main ToLower sys logChan args = collector.Serving (Some src) /\
    source_running src = true.
Proof.
  unfold collector.main.
  destruct (length args <? 2)%nat; [now left |].
  destruct (String.eqb (nth 1 args "") "file").
  { unfold collector.startFileMode.
    destruct (length args <? 3)%nat; [now left |].
    destruct (collector.NotExist sys _); [now left |].
    destruct (file_reader.Start _ _) as [fr [e|]] eqn:E; [now left |].
    right. eexists. split; [reflexivity |]. simpl.
    unfold file_reader.Start in E. simpl in E.
    destruct (file_reader.Open _ _); [discriminate |].
    now injection E as <-. }
  destruct (String.eqb (nth 1 args "") "syslog").
  { unfold collector.startSyslogMode.
    destruct (length args <? 4)%nat; [now left |].
    destruct (syslog_receiver.Start _ _) as [sr [e|]] eqn:E; [now left |].
    right. eexists. split; [reflexivity |]. simpl.
    unfold syslog_receiver.Start, syslog_receiver.startUDP,
      syslog_receiver.startTCP in E. simpl in E.
    destruct (String.eqb _ "udp");
      [destruct (syslog_receiver.ResolveUDPAddr _ _); [discriminate |];
       destruct (syslog_receiver.ListenUDP _ _); [discriminate |]
      | destruct (String.eqb _ "tcp"); [| discriminate];
        destruct (syslog_receiver.ListenTCP _ _); [discriminate |]];
      now injection E as <-. }
  destruct (String.eqb (nth 1 args "") "http"); [| now left].
  unfold collector.startHTTPMode.
  destruct (length args <? 3)%nat; [now left |].
  right. eexists. split; reflexivity.
Qed.

(** What each mode of the collector needs.  File mode serves exactly
    when the cleaned path exists and opens, and then tails that path from
    offset 0.  Syslog mode goes by [Start] on the receiver it constructs:
    it serves exactly when the protocol argument, lower-cased by
    [strings.ToLower], is "udp" and the address resolves and binds, or is
    "tcp" and the address binds.  HTTP mode serves whenever an address is
    given: a bind failure is not seen by [main].  Any other mode, no mode
    at all, and a mode without all of its arguments exit with status
    1. *)
Theorem collector_modes
    (sys : collector.system) (logChan : nat) (prog : string) :
  (forall path rest,
      let p := collector.Clean sys path in
      (exists src,
          collector.main ToLower sys logChan (prog :: "file" :: path :: rest)
            = collector.Serving src) <->
      collector.NotExist sys p = false /\
      file_reader.Open (collector.files sys) p = None) /\
  (forall path rest src,
      collector.main ToLower sys logChan (prog :: "file" :: path :: rest)
        = collector.Serving src ->
      exists fr, src = Some (collector.File fr) /\
                 file_reader.filepath fr = collector.Clean sys path /\
                 file_reader.GetOffset fr = 0) /\
  (forall protocol addr rest,
      let sr := syslog_receiver.NewSyslogReceiver ToLower addr protocol in
      collector.main ToLower sys logChan
        (prog :: "syslog" :: protocol :: addr :: rest)
        = match syslog_receiver.Start (collector.net sys) sr with
          | (sr', None) => collector.Serving (Some (collector.Syslog sr'))
          | (_, Some _) => collector.Exit 1
          end) /\
  (forall protocol addr rest,
      (exists src,
          collector.main ToLower sys logChan
            (prog :: "syslog" :: protocol :: addr :: rest)
            = collector.Serving src) <->
      (ToLower protocol = "udp" /\
       syslog_receiver.ResolveUDPAddr (collector.net sys) addr = None /\
       syslog_receiver.ListenUDP (collector.net sys) addr = None) \/
      (ToLower protocol = "tcp" /\
       syslog_receiver.ListenTCP (collector.net sys) addr = None)) /\
  (forall addr rest,
      exists hr,
        collector.main ToLower sys logChan (prog :: "http" :: addr :: rest)
          = collector.Serving (Some (collector.HTTP hr)) /\
        http_receiver.addr hr = addr /\
        http_receiver.out hr = Some logChan) /\
  (forall mode rest,
      mode <> "file" -> mode <> "syslog" -> mode <> "http" ->
      collector.main ToLower sys logChan (prog :: mode :: rest)
        = collector.Exit 1) /\
  collector.main ToLower sys logChan [prog] = collector.Exit 1 /\
  collector.main ToLower sys logChan [prog; "file"] = collector.Exit 1 /\
  collector.main ToLower sys logChan [prog; "http"] = collector.Exit 1 /\
  collector.main ToLower sys logChan [prog; "syslog"] = collector.Exit 1 /\
  (forall protocol,
      collector.main ToLower sys logChan [prog; "syslog"; protocol]
        = collector.Exit 1).
Proof.
  split; [| split; [| split; [| split; [| split; [| split]]]]].
  - intros path rest p. subst p. unfold collector.main. simpl.
    unfold collector.startFileMode. simpl.
    destruct (collector.NotExist sys (collector.Clean sys path)).
    { split; [intros [src H]; discriminate | intros [H _]; discriminate]. }
    unfold file_reader.Start. simpl.
    destruct (file_reader.Open _ _); simpl.
    + split; [intros [src H]; discriminate | intros [_ H]; discriminate].
    + split; [auto | eauto].
  - intros path rest src. unfold collector.main. simpl.
    unfold collector.startFileMode. simpl.
    destruct (collector.NotExist sys (collector.Clean sys path));
      [discriminate |].
    unfold file_reader.Start. simpl.
    destruct (file_reader.Open _ _); simpl; [discriminate |].
    intros H. injection H as <-. eexists. repeat split.
  - intros protocol addr rest sr.
    unfold collector.main. simpl. unfold collector.startSyslogMode. simpl.
    fold sr. destruct (syslog_receiver.Start _ sr) as [sr' [e|]]; reflexivity.
  - intros protocol addr rest.
    unfold collector.main. simpl. unfold collector.startSyslogMode. simpl.
    unfold syslog_receiver.Start, syslog_receiver.startUDP,
      syslog_receiver.startTCP. simpl.
    destruct (String.eqb_spec (ToLower protocol) "udp") as [Hudp|Hudp].
    + destruct (syslog_receiver.ResolveUDPAddr (collector.net sys) addr)
        as [e|] eqn:Hres; simpl.
      { split; [intros [src H]; discriminate |].
        intros [(_ & H & _)|(H & _)]; [discriminate |].
        rewrite Hudp in H. discriminate. }
      destruct (syslog_receiver.ListenUDP (collector.net sys) addr)
        as [e|] eqn:Hbind; simpl.
      { split; [intros [src H]; discriminate |].
        intros [(_ & _ & H)|(H & _)]; [discriminate |].
        rewrite Hudp in H. discriminate. }
      split; [auto | eauto].
    + destruct (String.eqb_spec (ToLower protocol) "tcp") as [Htcp|Htcp].
      * destruct (syslog_receiver.ListenTCP (collector.net sys) addr)
          as [e|] eqn:Hbind; simpl.
        { split; [intros [src H]; discriminate |].
          intros [(H & _)|(_ & H)]; [contradiction | discriminate]. }
        split; [auto | eauto].
      * simpl. split; [intros [src H]; discriminate |].
        intros [(H & _)|(H & _)]; contradiction.
  - intros addr rest. eexists. split; [reflexivity |]. now split.
  - intros mode rest Hf Hs Hh. unfold collector.main. simpl.
    apply String.eqb_neq in Hf, Hs, Hh. now rewrite Hf, Hs, Hh.
  - repeat split.
Qed.

End collector_more.

(** The modes at the byte-wise lower-casing, which is [strings.ToLower]
    on the ASCII arguments of this example. *)
Section collector_examples.

Lemma collector_modes_witness :
  let sys := {| collector.Clean := fun p => p;
                collector.NotExist := fun _ => false;
                collector.Abs := fun p => p;
                collector.files := sound_fs;
                collector.net :=
                  {| syslog_receiver.ResolveUDPAddr := fun _ => None;
                     syslog_receiver.ListenUDP := fun _ => None;
                     syslog_receiver.ListenTCP :=
                       fun _ => Some "address already in use" |} |} in
  let main := collector.main gostrings.lower_ascii sys 0 in
  (exists src, main ["logflux"; "file"; "app.log"] = collector.Serving src) /\
  (exists src,
      main ["logflux"; "syslog"; "UDP"; ":514"] = collector.Serving src) /\
  main ["logflux"; "syslog"; "tcp"; ":514"] = collector.Exit 1 /\
  main ["logflux"; "tail"; "app.log"] = collector.Exit 1.
Proof.
  intros sys main.
  destruct (collector_modes gostrings.lower_ascii sys 0 "logflux")
    as (Hfile & _ & Hstart & Hsyslog & _ & Hother & _).
  split; [| split; [| split]].
  - apply (Hfile "app.log" []). split; reflexivity.
  - apply (Hsyslog "UDP" ":514" []). left. repeat split.
  - exact (Hstart "tcp" ":514" []).
  - apply Hother; discriminate.
Defined.

End collector_examples.

(** * What the collector prints *)
Section print_more.
Import gostrings models.

Lemma ends_with_newline_append (a b : string) :
  ends_with_newline b -> ends_with_newline (a +:+ b).
Proof.
  intros [body ->]. exists (a +:+ body). now rewrite append_assoc.
Qed.

Lemma last_byte_append (a b : string) (c : ascii) :
  last_byte b = Some c -> last_byte (a +:+ b) = Some c.
Proof.
  intros Hb. induction a as [|x a IH]; [exact Hb |].
  rewrite append_cons. simpl. rewrite IH.
  destruct (a +:+ b); [discriminate | reflexivity].
Qed.

Lemma message_terminated (m : string) :
  m <> "" ->
  ends_with_newline (m +:+ (if lacks_newline m then newline else "")).
Proof.
  intros Hm. destruct (lacks_newline m) eqn:E; [now exists m |].
  rewrite append_nil_r. apply lacks_newline_false in E. tauto.
Qed.

(** Every printed record ends its line, except one with an empty message.
    What [processLogs] prints for an entry ends in a newline exactly when
    the message is not empty; a message that ends in a newline gets no
    second one. *)
Theorem printed_entry_ends_its_line
    (format : Z -> string) (count : Z) (entry : LogEntry) :
  (ends_with_newline (collector.processLogs_entry format count entry) <->
   Message entry <> "") /\
  (ends_with_newline (Message entry) ->
   exists head,
     collector.processLogs_entry format count entry
       = head +:+ Message entry).
Proof.
  unfold collector.processLogs_entry. split; [split |].
  - intros [body E] Hm. rewrite Hm in E.
    assert (Hlast : last_byte (body +:+ newline) = Some " "%char).
    { rewrite <- E. do 8 apply last_byte_append. reflexivity. }
    unfold newline in Hlast. rewrite last_byte_app in Hlast. discriminate.
  - intros Hm. do 9 apply ends_with_newline_append.
    now apply message_terminated.
  - intros [body E]. rewrite E, lacks_newline_terminated, append_nil_r.
    eexists. rewrite <- !append_assoc. reflexivity.
Qed.

Lemma printed_entry_ends_its_line_witness :
  let e := set_Message "started" (NewLogEntry 0) in
  Message e <> "" /\
  ends_with_newline (collector.processLogs_entry (fun _ => "T") 1 e).
Proof.
  intros e.
  assert (H : Message e <> "") by discriminate.
  exact (conj H (proj2 (proj1 (printed_entry_ends_its_line
                                 (fun _ => "T") 1 e)) H)).
Defined.




End print_more.
